(** * power-di: an auto-wiring dependency-injection container

    A shallow embedding of [src/util.js] and [src/index.js], and the
    properties of the resolution algorithm ([get]), of the registration
    operations and of the name-casing helpers.

    Conventions of the embedding.
    - JavaScript strings are [string]s over the code units below 256; the
      character classes the code uses ([A-Z0-9], white space, line
      terminators, the letters the [i] flag folds) are the classes of
      JavaScript restricted to these code units.
    - [this.container], a JavaScript object used as a dictionary, is a
      finite map from names to dependency records, the object's own
      properties, together with the names the object inherits from
      [Object.prototype] ([toString], [constructor], ...): [has] and
      [_setDependency] find a value under these names too.
    - [get] calls back into user code, the factories and the constructors
      of the registered classes, and user code may call the container
      again.  User code is a tree of calls ([prog]): [get], [addConstant],
      [addFunction] and [addFactory] on the container it was handed, the
      creation and update of objects, and it may throw or loop for ever.
      [get] is defined by recursion on the depth of nested [get] calls
      ([fuel]); [OutOfFuel] stands for a call that has not finished: the
      depth is used up, or user code loops.
    - The names user code registers are recorded in [user_registrations],
      and the names asked of [require.resolve] in [resolved]; the code
      reads neither.
    - Objects have an identity: a location in [heap]; [new] and [{}] take
      the next free one.
    - The file system and the module loader are outside: [addFile] takes
      what [require(fullPath)] does (it throws, or returns the exports),
      [addDirectory] takes the directory as [fs] and [path] report it (a
      tree of entries, each a directory or a file with its extension and
      what loading it does), and the installed modules are a finite map
      [node_modules].
    - [_debug] forwards a message to the optional sink [config.debug] and
      touches nothing else; the sink is not modelled.  The [seenClasses]
      array of [get] is only ever pushed to and never read; it is left
      out. *)

From Stdlib Require Import Ascii String.
From stdpp Require Import strings list gmap.

Local Open Scope string_scope.

(** ** src/util.js *)

Module Util.

(** *** Characters *)

(** The code unit of a character; the strings of this development are
    over the code units below 256. *)
Definition code (c : ascii) : nat := nat_of_ascii c.

Definition in_range (lo hi : nat) (c : ascii) : bool :=
  (lo <=? code c)%nat && (code c <=? hi)%nat.

(** The character class [[A-Z0-9]]. *)
Definition is_upper_or_digit (c : ascii) : bool :=
  in_range 65 90 c || in_range 48 57 c.

(** [.] of a regular expression: anything but a line terminator.  The
    line terminators of JavaScript are U+000A, U+000D, U+2028 and U+2029;
    the first two are below 256. *)
Definition is_line_terminator (c : ascii) : bool :=
  (code c =? 10)%nat || (code c =? 13)%nat.

(** What [String.prototype.trim] strips: white space and line
    terminators.  Below 256 these are U+0009 to U+000D, the space U+0020
    and the no-break space U+00A0. *)
Definition is_whitespace (c : ascii) : bool :=
  in_range 9 13 c || (code c =? 32)%nat || (code c =? 160)%nat.

(** The lower-case form of a letter of [[A-Z]]; [kebabCase] lowers
    nothing else. *)
Definition lower_char (c : ascii) : ascii :=
  if in_range 65 90 c then ascii_of_nat (code c + 32) else c.

(** How the [i] flag compares a character with a letter of the pattern:
    by its upper-case form.  A pattern without the [u] flag never folds a
    character from 128 on onto one below, so only [[a-z]] is folded. *)
Definition upper_char (c : ascii) : ascii :=
  if in_range 97 122 c then ascii_of_nat (code c - 32) else c.

(** [match.toLowerCase()], on a match of [[A-Z0-9]+]. *)
Fixpoint toLowerCase (s : string) : string :=
  match s with
  | EmptyString => EmptyString
  | String c s' => String (lower_char c) (toLowerCase s')
  end.

(** *** kebabCase *)

(** The longest prefix of [s] matched by [[A-Z0-9]*], and what follows. *)
Fixpoint span_upper_or_digit (s : string) : string * string :=
  match s with
  | EmptyString => (EmptyString, EmptyString)
  | String c s' =>
      if is_upper_or_digit c
      then let '(m, rest) := span_upper_or_digit s' in (String c m, rest)
      else (EmptyString, s)
  end.

(** [str.replace(/[A-Z0-9]+/g, match => '-' + match.toLowerCase())]:
    scanning from the left, a position where the pattern matches is
    replaced, greedily, by the callback's result and the scan resumes after
    the match; any other character is copied.  [steps] bounds the number
    of positions the scan visits. *)
Fixpoint replace_matches (steps : nat) (str : string) : string :=
  match str, steps with
  | EmptyString, _ => EmptyString
  | String _ _, 0 => str
  | String c s', S steps' =>
      if is_upper_or_digit c
      then
        let '(more, rest) := span_upper_or_digit s' in
        "-" ++ toLowerCase (String c more) ++ replace_matches steps' rest
      else String c (replace_matches steps' s')
  end.

Definition kebabCase (str : string) : string :=
  replace_matches (String.length str) str.

(** *** getFunctionArgs *)

(** Case-insensitive prefix test (the [i] flag). *)
Fixpoint starts_with_ci (p s : string) : bool :=
  match p, s with
  | EmptyString, _ => true
  | String a p', String b s' =>
      if ascii_dec (upper_char a) (upper_char b) then starts_with_ci p' s'
      else false
  | String _ _, EmptyString => false
  end.

Fixpoint drop (n : nat) (s : string) : string :=
  match n, s with
  | 0, _ => s
  | S n', String _ s' => drop n' s'
  | S _, EmptyString => EmptyString
  end.

(** The characters up to the first line terminator. *)
Fixpoint line_of (s : string) : string :=
  match s with
  | EmptyString => EmptyString
  | String c s' =>
      if is_line_terminator c then EmptyString else String c (line_of s')
  end.

(** [before_last_paren s] is the text before the last [)] of [s], when
    there is one. *)
Fixpoint before_last_paren (s : string) : option string :=
  match s with
  | EmptyString => None
  | String c s' =>
      match before_last_paren s' with
      | Some g => Some (String c g)
      | None => if ascii_dec c ")" then Some EmptyString else None
      end
  end.

(** [(.+)\)] at the start of [s]: a greedy, non-empty group of characters
    of one line, followed by a closing parenthesis. *)
Definition match_group (s : string) : option string :=
  match before_last_paren (line_of s) with
  | Some (String c g) => Some (String c g)
  | _ => None
  end.

(** [str.match(/constructor\((.+)\)/i)]: the group of the leftmost
    match. *)
Fixpoint match_constructor (str : string) : option string :=
  match str with
  | EmptyString => None
  | String _ rest =>
      let here :=
        if starts_with_ci "constructor(" str
        then match_group (drop 12 str) else None in
      match here with
      | Some g => Some g
      | None => match_constructor rest
      end
  end.

(** [s.split(',')]. *)
Fixpoint split_comma (s : string) : list string :=
  match s with
  | EmptyString => [EmptyString]
  | String c s' =>
      match split_comma s' with
      | piece :: pieces =>
          if ascii_dec c "," then EmptyString :: piece :: pieces
          else String c piece :: pieces
      | [] => [String c EmptyString]
      end
  end.

Fixpoint trim_start (s : string) : string :=
  match s with
  | String c s' => if is_whitespace c then trim_start s' else s
  | EmptyString => EmptyString
  end.

Fixpoint trim_end (s : string) : string :=
  match s with
  | EmptyString => EmptyString
  | String c s' =>
      match trim_end s' with
      | EmptyString => if is_whitespace c then EmptyString else String c EmptyString
      | t => String c t
      end
  end.

Definition trim (s : string) : string := trim_end (trim_start s).

(** [getFunctionArgs(func)], on the source text [func.toString()]:
    the trimmed, comma-separated pieces of the constructor's parameter
    list, or [None] (JavaScript's [null]) when the pattern finds none. *)
Definition getFunctionArgs (source : string) : option (list string) :=
  match match_constructor source with
  | Some g => Some (map trim (split_comma g))
  | None => None
  end.

End Util.

(** ** src/index.js *)

Module Container.

(** *** Values, user code and the objects the container stores *)

Definition loc := nat.

(** JavaScript values, as far as the container can tell them apart. *)
Inductive value : Type :=
| VUndefined
| VNull
| VBool (b : bool)
| VNum (n : Z)
| VStr (s : string)
| VObj (l : loc)            (* an object created while the program runs *)
| VFun (id : nat)           (* a function the container only passes on *)
| VModule (name : string)   (* the exports of an installed module *)
| VThis.                    (* the container itself *)

#[global] Instance value_eq_dec : EqDecision value.
Proof. solve_decision. Defined.

Definition truthy (v : value) : bool :=
  match v with
  | VUndefined | VNull | VBool false | VNum 0%Z | VStr EmptyString => false
  | _ => true
  end.

Definition is_object (v : value) : bool :=
  match v with
  | VObj _ | VFun _ | VModule _ | VThis => true
  | _ => false
  end.

(** User code (a factory, a constructor body): what it asks of the
    container it was handed and of the heap, and what it returns, unless
    it throws or never comes back. *)
Inductive prog : Type :=
| Return (v : value)
| Throw (msg : string)
| Forever                                                     (* while (true) {} *)
| Get (depName : string) (k : value -> prog)                  (* container.get(depName) *)
| AddConstant (name : string) (constant : value) (k : prog)   (* container.addConstant(..) *)
| AddFunction (name : string) (func : value) (k : prog)       (* container.addFunction(..) *)
| AddFactory (name : string) (factory : value -> prog) (k : prog)
| NewObject (k : loc -> prog)                                 (* {} *)
| SetField (l : loc) (field : string) (v : value) (k : prog). (* o.field = v *)

(** A class (or plain function) as [require] returns it. *)
Record function_object : Type := {
  name : string;                            (* Function.prototype.name *)
  toString : string;                        (* the source text *)
  construct : loc -> list value -> prog     (* the constructor body, on [this] *)
}.

(** [module.exports] of a scanned file: [prototype] is there for a class,
    the other fields are the properties the file chose to export. *)
Module Required.
Record t : Type := {
  prototype : option function_object;
  depName : option string;
  singleton : value;
  ignore : option value;
  factory : option (value -> prog);
  constant : option value;
  function : option value
}.
End Required.

(** An entry of [this.container]; an absent property is [None] or
    [false]. *)
Record dependency : Type := {
  args : option (list string);
  file : option Required.t;
  isClass : bool;
  isSingleton : bool;
  instance : option value;
  constant : option value;
  isConstant : bool;
  function : option value;
  isFunction : bool;
  factory : option (value -> prog);
  isFactory : bool
}.

(** [dependency.instance = v] *)
Definition set_instance (v : value) (d : dependency) : dependency :=
  {| args := args d; file := file d; isClass := isClass d;
     isSingleton := isSingleton d; instance := Some v;
     constant := constant d; isConstant := isConstant d;
     function := function d; isFunction := isFunction d;
     factory := factory d; isFactory := isFactory d |}.

(** The object literals of the source:
    [{constant: constant, isConstant: true}] *)
Definition constant_definition (c : value) : dependency :=
  {| args := None; file := None; isClass := false; isSingleton := false;
     instance := None; constant := Some c; isConstant := true;
     function := None; isFunction := false;
     factory := None; isFactory := false |}.

(** [{function: func, isFunction: true}] *)
Definition function_definition (f : value) : dependency :=
  {| args := None; file := None; isClass := false; isSingleton := false;
     instance := None; constant := None; isConstant := false;
     function := Some f; isFunction := true;
     factory := None; isFactory := false |}.

(** [{factory: factory, isFactory: true}] *)
Definition factory_definition (f : value -> prog) : dependency :=
  {| args := None; file := None; isClass := false; isSingleton := false;
     instance := None; constant := None; isConstant := false;
     function := None; isFunction := false;
     factory := Some f; isFactory := true |}.

(** [{args: args, file: requiredFile, isClass: true, isSingleton: isSingleton}] *)
Definition class_definition (a : option (list string)) (f : Required.t)
    (s : bool) : dependency :=
  {| args := a; file := Some f; isClass := true; isSingleton := s;
     instance := None; constant := None; isConstant := false;
     function := None; isFunction := false;
     factory := None; isFactory := false |}.

(** *** The container and the world around it *)

(** [this.config] *)
Record configuration : Type := {
  prefix : string;
  npmPrefix : string;
  debug : bool;
  nodeModulePrefix : option string
}.

(** The object handed to [new Container(config)]: the keys it sets. *)
Record options : Type := {
  opt_prefix : option string;
  opt_npmPrefix : option string;
  opt_debug : option bool;
  opt_nodeModulePrefix : option string
}.

Definition no_options : options :=
  {| opt_prefix := None; opt_npmPrefix := None; opt_debug := None;
     opt_nodeModulePrefix := None |}.

Record state : Type := {
  container : gmap string dependency;   (* this.container: its own properties *)
  config : configuration;               (* this.config *)
  node_modules : gmap string value;     (* the modules require can load *)
  resolved : list string;               (* the names require.resolve was asked, oldest first *)
  user_registrations : list string;     (* the names user code registered, oldest first *)
  next_loc : loc;                       (* the next fresh object *)
  heap : gmap loc (gmap string value)   (* the fields of the objects *)
}.

Definition with_container (c : gmap string dependency) (st : state) : state :=
  {| container := c; config := config st;
     node_modules := node_modules st; resolved := resolved st;
     user_registrations := user_registrations st;
     next_loc := next_loc st; heap := heap st |}.

Definition with_resolved (r : list string) (st : state) : state :=
  {| container := container st; config := config st;
     node_modules := node_modules st; resolved := r;
     user_registrations := user_registrations st;
     next_loc := next_loc st; heap := heap st |}.

Definition with_user_registrations (names : list string) (st : state)
    : state :=
  {| container := container st; config := config st;
     node_modules := node_modules st; resolved := resolved st;
     user_registrations := names;
     next_loc := next_loc st; heap := heap st |}.

Definition with_heap (n : loc) (h : gmap loc (gmap string value))
    (st : state) : state :=
  {| container := container st; config := config st;
     node_modules := node_modules st; resolved := resolved st;
     user_registrations := user_registrations st;
     next_loc := n; heap := h |}.

(** [this.container] is made by [{}]: besides its own properties it
    answers to the names every object inherits from [Object.prototype],
    with a method of that prototype or, under [__proto__], with the
    prototype itself.  None of these values is null or falsy, and none has
    a property [isSingleton], [isFunction], [isConstant], [isFactory],
    [args] or [file]. *)
Definition Object_prototype : list string :=
  [ "constructor"; "__defineGetter__"; "__defineSetter__"; "hasOwnProperty";
    "__lookupGetter__"; "__lookupSetter__"; "isPrototypeOf";
    "propertyIsEnumerable"; "toString"; "valueOf"; "__proto__";
    "toLocaleString" ].

Definition inherited (name : string) : bool :=
  existsb (String.eqb name) Object_prototype.

(** *** Calls that return, throw, or do not finish *)

Inductive error : Type :=
| DuplicateDependency (name : string)
| CannotFindUserModule (depName : string)
| PreMadeInstance (depName : string)
| IsAConstant (depName : string)
| CouldNotFindNpmModule (depName : string)
| TypeError                 (* calling, constructing or reading undefined or null *)
| UserError (msg : string). (* thrown by user code or by the module loader *)

(** The text of the [Error] the source throws. *)
Definition message (e : error) : string :=
  match e with
  | DuplicateDependency n => "Duplicate dependency found: " ++ n
  | CannotFindUserModule n => "Container cannot find user module: " ++ n
  | PreMadeInstance n =>
      "Cannot return class for dependency, it is a pre-made instance: " ++ n
  | IsAConstant n =>
      "Cannot return class for dependency, it is a constant: " ++ n
  | CouldNotFindNpmModule n => "Container could not find NPM module: " ++ n
  | TypeError => "TypeError"
  | UserError msg => msg
  end.

Inductive outcome (A : Type) : Type :=
| Ok (a : A)
| Err (e : error)
| OutOfFuel.
Arguments Ok {A} a.
Arguments Err {A} e.
Arguments OutOfFuel {A}.

Definition M (A : Type) : Type := state -> outcome A * state.

Definition ret {A} (a : A) : M A := fun st => (Ok a, st).
Definition throw {A} (e : error) : M A := fun st => (Err e, st).
Definition bind {A B} (m : M A) (f : A -> M B) : M B :=
  fun st =>
    match m st with
    | (Ok a, st') => f a st'
    | (Err e, st') => (Err e, st')
    | (OutOfFuel, st') => (OutOfFuel, st')
    end.

Notation "'let!' x ':=' m 'in' k" := (bind m (fun x => k))
  (at level 10, x pattern, m at level 100, k at level 200).


(** *** The constructor *)

(** [new Container(config)] (also [create(config)]): the defaults, each
    overridden by the key of the same name when [config] has it. *)
Definition create (opts : options) (modules : gmap string value) : state :=
  {| container := ∅;
     config :=
       {| prefix := default "" (opt_prefix opts);
          npmPrefix := default "" (opt_npmPrefix opts);
          debug := default false (opt_debug opts);
          nodeModulePrefix := opt_nodeModulePrefix opts |};
     node_modules := modules;
     resolved := [];
     user_registrations := [];
     next_loc := 0;
     heap := ∅ |}.

(** *** Registration *)

(** [if (this.container[name]) throw ...; this.container[name] = dependency]:
    the test finds an entry, or failing that an inherited property. *)
Definition _setDependency (name : string) (d : dependency) : M unit :=
  fun st =>
    match container st !! name with
    | Some _ => (Err (DuplicateDependency name), st)
    | None =>
        if inherited name
        then (Err (DuplicateDependency name), st)
        else (Ok tt, with_container (<[name := d]> (container st)) st)
    end.

Definition addConstant (name : string) (c : value) : M unit :=
  _setDependency name (constant_definition c).

Definition addFunction (name : string) (f : value) : M unit :=
  _setDependency name (function_definition f).

Definition addFactory (name : string) (f : value -> prog) : M unit :=
  _setDependency name (factory_definition f).

(** [prefix + name]; an undefined [name] reads "undefined". *)
Definition _createDepName (name : option string) (prefix : string) : string :=
  prefix ++ default "undefined" name.

(** [requiredFile.depName || requiredFile.name] *)
Definition class_name (requiredFile : Required.t) (c : function_object)
    : string :=
  match Required.depName requiredFile with
  | Some (String a n) => String a n
  | _ => name c
  end.

(** [singleton === undefined || singleton === true] *)
Definition singleton_flag (v : value) : bool :=
  match v with
  | VUndefined | VBool true => true
  | _ => false
  end.

Definition _addClassDefinition (requiredFile : Required.t)
    (c : function_object) (prefix : string) : M unit :=
  let name := _createDepName (Some (class_name requiredFile c)) prefix in
  let args := Util.getFunctionArgs (toString c) in
  let isSingleton := singleton_flag (Required.singleton requiredFile) in
  _setDependency name (class_definition args requiredFile isSingleton).

Definition _addConstant (requiredFile : Required.t) (prefix : string)
    : M unit :=
  let name := _createDepName (Required.depName requiredFile) prefix in
  _setDependency name
    (constant_definition (default VUndefined (Required.constant requiredFile))).

Definition _addFunction (requiredFile : Required.t) (prefix : string)
    : M unit :=
  let name := _createDepName (Required.depName requiredFile) prefix in
  _setDependency name
    (function_definition (default VUndefined (Required.function requiredFile))).

Definition _addFactory (requiredFile : Required.t) (f : value -> prog)
    (prefix : string) : M unit :=
  let name := _createDepName (Required.depName requiredFile) prefix in
  _setDependency name (factory_definition f).

(** What [require(fullPath)] does: it throws (there is no such file, or
    the code of the file throws), or it returns the file's
    [module.exports].  Exports that are a number, a string or a boolean have
    none of the properties [addFile] looks at, like a record without any. *)
Inductive loaded : Type :=
| Throws (msg : string)
| Nullish                              (* module.exports is null or undefined *)
| Exports (requiredFile : Required.t).

(** [addFile(fullPath, prefix)], on what [require(fullPath)] does;
    [prefix] is [None] when the caller left it out.
    [Object.getOwnPropertyNames] throws on null and on undefined. *)
Definition addFile (fullPath : loaded) (prefix : option string) : M unit :=
  match fullPath with
  | Throws msg => throw (UserError msg)
  | Nullish => throw TypeError
  | Exports requiredFile =>
      fun st =>
        let prefix := default (Container.prefix (config st)) prefix in
        let ignored :=
          match Required.ignore requiredFile with
          | Some v => truthy v
          | None => false
          end in
        if ignored then (Ok tt, st)
        else
          match Required.prototype requiredFile with
          | Some c => _addClassDefinition requiredFile c prefix st
          | None =>
              match Required.factory requiredFile,
                    Required.constant requiredFile,
                    Required.function requiredFile with
              | Some f, _, _ => _addFactory requiredFile f prefix st
              | None, Some _, _ => _addConstant requiredFile prefix st
              | None, None, Some _ => _addFunction requiredFile prefix st
              | None, None, None => (Ok tt, st)
              end
          end
  end.

(** *** Resolution *)

(** [this.container[depName] != null]: true of an entry and of an
    inherited property. *)
Definition has (depName : string) (st : state) : bool :=
  match container st !! depName with
  | Some _ => true
  | None => inherited depName
  end.

(** [util.nodeModuleExists(name)]: whether [require.resolve(name)]
    succeeds; the question is recorded. *)
Definition nodeModuleExists (name : string) : M bool :=
  fun st =>
    (Ok (bool_decide (is_Some (node_modules st !! name))),
     with_resolved (resolved st ++ [name]) st).

(** [require(name)] *)
Definition require (name : string) : M value :=
  fun st =>
    match node_modules st !! name with
    | Some m => (Ok m, st)
    | None => (Err (UserError ("Cannot find module '" ++ name ++ "'")), st)
    end.

(** [s.replace(new RegExp('-', 'g'), '.')] *)
Fixpoint dashes_to_dots (s : string) : string :=
  match s with
  | EmptyString => EmptyString
  | String c s' =>
      String (if ascii_dec c "-" then "."%char else c) (dashes_to_dots s')
  end.

Definition _getNodeModule (depName : string) : M value :=
  let! exact := nodeModuleExists depName in
  if exact then require depName
  else
    let dashName := Util.kebabCase depName in
    let! dashed := nodeModuleExists dashName in
    if dashed then require dashName
    else
      let dotName := dashes_to_dots dashName in
      let! dotted := nodeModuleExists dotName in
      if dotted then require dotName
      else throw (CouldNotFindNpmModule depName).

(** [this.config.nodeModulePrefix && depName.startsWith(this.config.nodeModulePrefix)] *)
Definition starts_with_nodeModulePrefix (depName : string) (st : state)
    : bool :=
  match nodeModulePrefix (config st) with
  | Some (String a p) => String.prefix (String a p) depName
  | _ => false
  end.

(** A registration made by user code: when it succeeds, the name is put
    on record. *)
Definition by_user_code (name : string) (registration : M unit) : M unit :=
  fun st =>
    match registration st with
    | (Ok _, st') =>
        (Ok tt, with_user_registrations (user_registrations st' ++ [name]) st')
    | (Err e, st') => (Err e, st')
    | (OutOfFuel, st') => (OutOfFuel, st')
    end.

Section Resolution.

(** [this.get], as the code below it calls it. *)
Variable this_get : string -> M value.

(** Running user code against the container.  Code that loops for ever
    is code that has not finished, at whatever depth. *)
Fixpoint run (p : prog) : M value :=
  match p with
  | Return v => ret v
  | Throw msg => throw (UserError msg)
  | Forever => fun st => (OutOfFuel, st)
  | Get depName k => let! v := this_get depName in run (k v)
  | AddConstant n c k => let! _ := by_user_code n (addConstant n c) in run k
  | AddFunction n f k => let! _ := by_user_code n (addFunction n f) in run k
  | AddFactory n f k => let! _ := by_user_code n (addFactory n f) in run k
  | NewObject k =>
      fun st =>
        let l := next_loc st in
        run (k l) (with_heap (S l) (<[l := ∅]> (heap st)) st)
  | SetField l field v k =>
      fun st =>
        run k (with_heap (next_loc st)
                 (alter (fun o => <[field := v]> o) l (heap st)) st)
  end.

(** [new file(...values)]: a fresh object is [this] of the constructor
    body; the body's own result replaces it only when it is an object. *)
Definition new (file : option Required.t) (values : list value) : M value :=
  match file with
  | Some requiredFile =>
      match Required.prototype requiredFile with
      | Some c =>
          fun st =>
            let l := next_loc st in
            (let! r := run (construct c l values) in
             ret (if is_object r then r else VObj l))
              (with_heap (S l) (<[l := ∅]> (heap st)) st)
      | None => throw TypeError
      end
  | None => throw TypeError
  end.

(** [for (let arg of dependency.args) args.push(this.get(arg, seenClasses))] *)
Fixpoint get_args (names : list string) : M (list value) :=
  match names with
  | [] => ret []
  | arg :: rest =>
      let! v := this_get arg in
      let! vs := get_args rest in
      ret (v :: vs)
  end.

(** [dependency.instance = instance], through the reference the
    container holds. *)
Definition cache_instance (depName : string) (inst : value) : M unit :=
  fun st =>
    (Ok tt, with_container (alter (set_instance inst) depName (container st)) st).

Definition cached (d : dependency) : bool :=
  isSingleton d &&
  match instance d with Some v => truthy v | None => false end.

Definition get_body (depName : string) : M value :=
  fun st =>
    if starts_with_nodeModulePrefix depName st || negb (has depName st)
    then _getNodeModule depName st
    else
      match container st !! depName with
      | None =>
          (* an inherited property: every test below reads undefined, and
             the last line is [new undefined()] *)
          (Err TypeError, st)
      | Some dependency =>
          if cached dependency
          then (Ok (default VUndefined (instance dependency)), st)
          else if isFunction dependency
          then (Ok (default VUndefined (function dependency)), st)
          else if isConstant dependency
          then (Ok (default VUndefined (constant dependency)), st)
          else if isFactory dependency
          then
            match factory dependency with
            | Some f => run (f VThis) st
            | None => (Err TypeError, st)
            end
          else
            match args dependency with
            | Some names =>
                (let! values := get_args names in
                 let! inst := new (file dependency) values in
                 let! _ := (if isSingleton dependency
                            then cache_instance depName inst
                            else ret tt) in
                 ret inst) st
            | None => new (file dependency) [] st
            end
      end.

End Resolution.

(** [get(depName)]; [fuel] bounds the depth of nested calls. *)
Fixpoint get (fuel : nat) (depName : string) : M value :=
  match fuel with
  | 0 => fun st => (OutOfFuel, st)
  | S fuel' => get_body (get fuel') depName
  end.

Definition getClass (depName : string) : M (option Required.t) :=
  fun st =>
    if negb (has depName st)
    then (Err (CannotFindUserModule depName), st)
    else
      match container st !! depName with
      | None =>
          (* an inherited property: neither [isFunction] nor [isConstant],
             and [file] reads undefined *)
          (Ok None, st)
      | Some dependency =>
          if isFunction dependency
          then (Err (PreMadeInstance depName), st)
          else if isConstant dependency
          then (Err (IsAConstant depName), st)
          else (Ok (file dependency), st)
      end.

(** *** Scanning a directory *)

(** What [fs.readdirSync] lists, in its order: for each entry whether
    [fs.lstatSync(fullPath).isDirectory()] holds, and then its own entries;
    otherwise [path.extname(fullPath)] and what [require(fullPath)]
    does. *)
#[local] Unset Elimination Schemes.
Inductive fs_entry : Type :=
| Directory (files : list fs_entry)
| File (extname : string) (fullPath : loaded).
#[local] Set Elimination Schemes.

(** The body of the loop of [addDirectory], for one entry: a directory is
    scanned in turn with the same prefix, a [.js] file is added, anything
    else is passed over. *)
Fixpoint addDirectory_entry (prefix : string) (file : fs_entry) : M unit :=
  match file with
  | Directory files =>
      (fix loop (files : list fs_entry) : M unit :=
         match files with
         | [] => ret tt
         | file :: rest =>
             let! _ := addDirectory_entry prefix file in loop rest
         end) files
  | File extname fullPath =>
      if String.eqb extname ".js"
      then addFile fullPath (Some prefix)
      else ret tt
  end.

(** [addDirectory(directory, prefix)], on a directory that [fs] can
    read; [prefix] is [None] when the caller left it out. *)
Definition addDirectory (directory : list fs_entry) (prefix : option string)
    : M unit :=
  fun st =>
    let prefix := default (Container.prefix (config st)) prefix in
    addDirectory_entry prefix (Directory directory) st.

End Container.

(** ** What the specification says, in its own words *)

Module NameResolver.

(** The maximal runs of a string: it is cut wherever a character of
    [[A-Z0-9]] meets one outside it; a run is tagged [true] when its
    characters are uppercase letters or digits. *)
Fixpoint maximal_runs (s : string) : list (bool * string) :=
  match s with
  | EmptyString => []
  | String c s' =>
      let b := Util.is_upper_or_digit c in
      match maximal_runs s' with
      | (b', r) :: rs =>
          if Bool.eqb b b' then (b, String c r) :: rs
          else (b, String c EmptyString) :: (b', r) :: rs
      | [] => [(b, String c EmptyString)]
      end
  end.

(** A run of uppercase letters or digits becomes [-] and the run in lower
    case; any other run stays. *)
Definition dash_run (run : bool * string) : string :=
  if fst run then "-" ++ Util.toLowerCase (snd run) else snd run.

Fixpoint concat_strings (l : list string) : string :=
  match l with
  | [] => EmptyString
  | s :: l' => s ++ concat_strings l'
  end.

Definition toDashCase (name : string) : string :=
  concat_strings (map dash_run (maximal_runs name)).

(** All characters of a run are on the side of the class its tag says,
    and a run is not empty. *)
Fixpoint all_chars (p : ascii -> bool) (s : string) : bool :=
  match s with
  | EmptyString => true
  | String c s' => p c && all_chars p s'
  end.

Definition is_run (run : bool * string) : Prop :=
  snd run ≠ EmptyString ∧
  all_chars (fun c => Bool.eqb (Util.is_upper_or_digit c) (fst run)) (snd run) = true.

(** Neighbouring runs are of different kinds: no run can be extended. *)
Fixpoint alternate (rs : list (bool * string)) : Prop :=
  match rs with
  | r1 :: ((r2 :: _) as rs') => fst r1 ≠ fst r2 ∧ alternate rs'
  | _ => True
  end.

End NameResolver.

Module Spec.

Import Container.

(** The error kinds of the specification, by the text the source
    throws. *)
Inductive error_kind : Type :=
| DuplicateNameError
| NotFoundError
| WrongKindError
| ExternalModuleNotFoundError
| RuntimeError.

Definition kind_of (e : error) : error_kind :=
  match e with
  | DuplicateDependency _ => DuplicateNameError
  | CannotFindUserModule _ => NotFoundError
  | PreMadeInstance _ | IsAConstant _ => WrongKindError
  | CouldNotFindNpmModule _ => ExternalModuleNotFoundError
  | TypeError | UserError _ => RuntimeError
  end.

(** A definition without its cache. *)
Definition without_instance (d : dependency) : dependency :=
  {| args := args d; file := file d; isClass := isClass d;
     isSingleton := isSingleton d; instance := None;
     constant := constant d; isConstant := isConstant d;
     function := function d; isFunction := isFunction d;
     factory := factory d; isFactory := isFactory d |}.

(** Two entries are the same definition when they differ at most in the
    cached instance: same kind, same registered value, same parameter
    list. *)
Definition same_definition (d d' : dependency) : Prop :=
  without_instance d = without_instance d'.

(** [depName] is registered with definition [d0], whatever is cached. *)
Definition registered (st : state) (depName : string) (d0 : dependency)
    : Prop :=
  ∃ d, container st !! depName = Some d ∧ same_definition d0 d.

(** The registration operations of the container. *)
Inductive registration : Type :=
| CallAddConstant (name : string) (c : value)
| CallAddFunction (name : string) (f : value)
| CallAddFactory (name : string) (f : value -> prog)
| CallAddFile (requiredFile : Required.t) (prefix : option string).

Definition register (r : registration) : M unit :=
  match r with
  | CallAddConstant n c => addConstant n c
  | CallAddFunction n f => addFunction n f
  | CallAddFactory n f => addFactory n f
  | CallAddFile requiredFile prefix => addFile (Exports requiredFile) prefix
  end.



(** Whether [get] hands [depName] to [_getNodeModule]. *)
Definition falls_through (depName : string) (st : state) : bool :=
  starts_with_nodeModulePrefix depName st || negb (has depName st).

(** A singleton class definition whose instance [get] constructs from
    resolved parameters. *)
Definition constructed_singleton (d : dependency) : Prop :=
  isSingleton d = true ∧ isFunction d = false ∧ isConstant d = false ∧
  isFactory d = false ∧ is_Some (args d).

(** What a call may do to an entry: nothing but write the instance of a
    singleton class definition that has none cached. *)
Definition entry_kept (d d' : dependency) : Prop :=
  same_definition d d' ∧
  (cached d = true → d' = d) ∧
  (instance d' ≠ instance d →
   cached d = false ∧ constructed_singleton d ∧
   ∃ v, instance d' = Some v ∧ is_object v = true).

(** No entry is removed or changed beyond [entry_kept]; the configuration
    and the installed modules stay. *)
Definition entries_kept (st st' : state) : Prop :=
  config st' = config st ∧
  node_modules st' = node_modules st ∧
  ∀ n d, container st !! n = Some d →
         ∃ d', container st' !! n = Some d' ∧ entry_kept d d'.

Definition nothing_added (st st' : state) : Prop :=
  ∀ n, container st !! n = None → container st' !! n = None.

(** User code that calls no registration operation. *)
Fixpoint registers_nothing (p : prog) : Prop :=
  match p with
  | Return _ | Throw _ | Forever => True
  | Get _ k => ∀ v, registers_nothing (k v)
  | AddConstant _ _ _ | AddFunction _ _ _ | AddFactory _ _ _ => False
  | NewObject k => ∀ l, registers_nothing (k l)
  | SetField _ _ _ k => registers_nothing k
  end.

(** The user code [get] may run for a definition: its factory, applied to
    the container, and the constructor of its class. *)
Definition user_code (d : dependency) (p : prog) : Prop :=
  (∃ f, factory d = Some f ∧ p = f VThis) ∨
  (∃ requiredFile c l values,
      file d = Some requiredFile ∧
      Required.prototype requiredFile = Some c ∧
      p = construct c l values).

Definition quiet (st : state) : Prop :=
  ∀ n d p, container st !! n = Some d → user_code d p → registers_nothing p.

(** User code that comes back: whatever the container answers, it reaches
    a [return] or a [throw]. *)
Fixpoint halts (p : prog) : Prop :=
  match p with
  | Return _ | Throw _ => True
  | Forever => False
  | Get _ k => ∀ v, halts (k v)
  | AddConstant _ _ k | AddFunction _ _ k | AddFactory _ _ k => halts k
  | NewObject k => ∀ l, halts (k l)
  | SetField _ _ _ k => halts k
  end.

Definition halting (st : state) : Prop :=
  ∀ n d p, container st !! n = Some d → user_code d p → halts p.

(** What a call has added to the container: the names user code
    registered while it ran, [names], are exactly the names that are in the
    container after the call and were not before. *)
Definition added_by_user_code (st st' : state) (names : list string) : Prop :=
  user_registrations st' = (user_registrations st ++ names)%list ∧
  ∀ n, container st !! n = None →
       (is_Some (container st' !! n) ↔ n ∈ names).

(** No name has left the container, and the new ones are those that user
    code registered. *)
Definition grown (st st' : state) : Prop :=
  (∀ n, is_Some (container st !! n) → is_Some (container st' !! n)) ∧
  ∃ names, added_by_user_code st st' names.

(** [requests p m]: user code [p] may call [get(m)]. *)
Inductive requests : prog → string → Prop :=
| requests_get m k : requests (Get m k) m
| requests_after_get m' k v m : requests (k v) m → requests (Get m' k) m
| requests_after_constant n c k m : requests k m → requests (AddConstant n c k) m
| requests_after_function n f k m : requests k m → requests (AddFunction n f k) m
| requests_after_factory n f k m : requests k m → requests (AddFactory n f k) m
| requests_after_new k l m : requests (k l) m → requests (NewObject k) m
| requests_after_set l f v k m : requests k m → requests (SetField l f v k) m.

(** The dependency graph over class definitions only: from a registered
    class definition to the definition registered under each of its
    declared constructor parameters. *)
Definition class_depends_on (st : state) (n m : string) : Prop :=
  ∃ d names, container st !! n = Some d ∧ isClass d = true ∧
             args d = Some names ∧ m ∈ names ∧
             is_Some (container st !! m).

(** The dependency graph with user code: from a definition to each of its
    declared parameters and to each name its factory or its constructor
    may request. *)
Definition depends_on (st : state) (n m : string) : Prop :=
  ∃ d, container st !! n = Some d ∧
       ((∃ names, args d = Some names ∧ m ∈ names) ∨
        (∃ p, user_code d p ∧ requests p m)).

Definition acyclic (R : string → string → Prop) : Prop :=
  ∀ n, ¬ tc R n n.

(** [get(depName)] finishes at some depth: it returns or throws. *)
Definition finishes (depName : string) (st : state) : Prop :=
  ∃ fuel r st', get fuel depName st = (r, st') ∧ r ≠ OutOfFuel.

(** [get(depName)] terminates, returning a value or throwing an error:
    from some depth on, every bound gives that same outcome and final
    state. *)
Definition terminates (depName : string) (st : state) : Prop :=
  ∃ (fuel : nat) r st',
    r ≠ OutOfFuel ∧
    ∀ fuel' : nat, (fuel ≤ fuel')%nat → get fuel' depName st = (r, st').

(** What a call does to the container: [strict] adds that it registers
    nothing. *)
Definition kept (strict : bool) (st st' : state) : Prop :=
  entries_kept st st' ∧ (strict = true → nothing_added st st').

(** [get(n)] finishes in every container that calls of [get] can make of
    [st0]. *)
Definition finishes_everywhere (st0 : state) (n : string) : Prop :=
  ∀ st, kept true st0 st → finishes n st.

(** A factory that makes a new object each time it is called. *)
Definition fresh_object_factory : value → prog :=
  fun _ => NewObject (fun l => Return (VObj l)).

End Spec.

(** ** Example containers, after the README *)

Module Examples.

Import Container Spec.

(** [module.exports = C] with no further property. *)
Definition exports (c : function_object) : Required.t :=
  {| Required.prototype := Some c; Required.depName := None;
     Required.singleton := VUndefined; Required.ignore := None;
     Required.factory := None; Required.constant := None;
     Required.function := None |}.

(** A class whose constructor takes no parameter. *)
Definition Ball : function_object :=
  {| name := "Ball";
     toString := "class Ball {
    constructor() {
        this.squeaks = 0;
    }
    squeeze() {
        console.log('Squeek!');
    }
}";
     construct := fun this _ => SetField this "squeaks" (VNum 0) (Return VUndefined) |}.

(** A class with two dependencies. *)
Definition Dog : function_object :=
  {| name := "Dog";
     toString := "class Dog {
    constructor(Ball, bcrypt) {
        this.Ball = Ball;
        this.bcrypt = bcrypt
    }
}";
     construct := fun this values =>
       SetField this "Ball" (nth 0 values VUndefined)
         (SetField this "bcrypt" (nth 1 values VUndefined) (Return VUndefined)) |}.

(** [function(container) { return new Car(container.get('CarName')); }] *)
Definition car_factory : value → prog :=
  fun _ =>
    Get "CarName" (fun carName =>
      NewObject (fun car => SetField car "name" carName (Return (VObj car)))).

Definition installed : gmap string value := {[ "bcrypt" := VModule "bcrypt" ]}.

Definition empty_container : state := create no_options installed.

(** The container of the README: two scanned classes, a constant, a
    factory and a function. *)
Definition readme_entries : gmap string dependency :=
  <["Add12" := function_definition (VFun 12)]>
    (<["Car" := factory_definition car_factory]>
       (<["CarName" := constant_definition (VStr "Bobby Big Wheels")]>
          (<["Dog" := class_definition (Some ["Ball"; "bcrypt"]) (exports Dog) true]>
             (<["Ball" := class_definition None (exports Ball) true]> ∅)))).

Definition readme_container : state :=
  with_container readme_entries empty_container.

(** A container that reads external-module names with a [$] in front,
    under the key the README documents and under the key the code
    reads. *)
Definition npm_prefix_container : state :=
  create {| opt_prefix := None; opt_npmPrefix := Some "$";
            opt_debug := None; opt_nodeModulePrefix := None |} installed.

Definition node_module_prefix_container : state :=
  create {| opt_prefix := None; opt_npmPrefix := None;
            opt_debug := None; opt_nodeModulePrefix := Some "$" |} installed.

(** A factory registered under a name that starts with that prefix. *)
Definition one_factory : value → prog := fun _ => Return (VNum 1).

Definition prefixed_factory_container : state :=
  snd (addFactory "$F" one_factory node_module_prefix_container).

(** A factory that registers a constant when it is called. *)
Definition registering_factory : value → prog :=
  fun _ => AddConstant "X" (VNum 1) (Return (VNum 1)).

Definition registering_container : state :=
  snd (addFactory "F" registering_factory empty_container).

(** A factory that asks the container for itself. *)
Definition self_factory : value → prog := fun _ => Get "F" Return.

Definition self_container : state :=
  snd (addFactory "F" self_factory empty_container).

(** A class whose constructor asks the container for the class itself,
    once, while the first instance is being made. *)
Definition Narcissus : function_object :=
  {| name := "Narcissus";
     toString := "class Narcissus {
    constructor(CarName) {
        if (first) { first = false; container.get('Narcissus'); }
    }
}";
     construct := fun this _ =>
       if (this =? 0)%nat then Get "Narcissus" (fun _ => Return VUndefined)
       else Return VUndefined |}.

Definition narcissus_container : state :=
  snd (addFile (Exports (exports Narcissus)) None
         (snd (addConstant "CarName" (VStr "Bobby Big Wheels") empty_container))).

(** A factory that never comes back: [function() { while (true) {} }]. *)
Definition forever_factory : value → prog := fun _ => Forever.

Definition forever_container : state :=
  snd (addFactory "F" forever_factory empty_container).

(** A container with nothing registered and [socket.io] installed. *)
Definition socket_container : state :=
  create no_options {[ "socket.io" := VModule "socket.io" ]}.

End Examples.

(** ** Further notions, for the properties of the code beyond the claims *)

Module Further.

Import Util NameResolver Container Spec.

(** *** Parameter lists *)

Definition is_comma (c : ascii) : bool :=
  if ascii_dec c "," then true else false.

(** A parameter name as [getFunctionArgs] hands it back unchanged: not
    empty, and free of commas, of the white space [trim] strips and of
    line terminators. *)
Definition name_char (c : ascii) : bool :=
  negb (is_comma c || is_whitespace c || is_line_terminator c).

Definition plain_name (n : string) : Prop :=
  n ≠ EmptyString ∧ all_chars name_char n = true.

(** [names.join(', ')] *)
Fixpoint join_names (names : list string) : string :=
  match names with
  | [] => EmptyString
  | [n] => n
  | n :: rest => n ++ ", " ++ join_names rest
  end.

Definition no_open_paren (s : string) : Prop :=
  all_chars (fun c => if ascii_dec c "(" then false else true) s = true.

Definition no_close_paren (s : string) : Prop :=
  all_chars (fun c => if ascii_dec c ")" then false else true) s = true.

(** A string that [trim] leaves as it is: it neither starts nor ends
    with white space. *)
Definition trimmed (s : string) : Prop := trim s = s.

(** *** Letter case *)

Definition is_upper (c : ascii) : bool := in_range 65 90 c.

Definition is_dash (c : ascii) : bool :=
  if ascii_dec c "-" then true else false.

(** *** Scanned files *)

(** [props.includes('ignore') && requiredFile['ignore']] *)
Definition is_ignored (requiredFile : Required.t) : bool :=
  match Required.ignore requiredFile with
  | Some v => truthy v
  | None => false
  end.

(** The name resolves inside the container and stands for the constant
    [v]. *)
Definition constant_parameter (st : state) (n : string) (v : value) : Prop :=
  registered st n (constant_definition v) ∧
  starts_with_nodeModulePrefix n st = false.

(** *** Objects *)

(** User code that hands back no object of its own: whatever it returns
    is a primitive value, so that a constructor with this body yields the
    object [new] made for it. *)
Fixpoint returns_no_object (p : prog) : Prop :=
  match p with
  | Return v => is_object v = false
  | Throw _ | Forever => True
  | Get _ k => ∀ v, returns_no_object (k v)
  | AddConstant _ _ k | AddFunction _ _ k | AddFactory _ _ k =>
      returns_no_object k
  | NewObject k => ∀ l, returns_no_object (k l)
  | SetField _ _ _ k => returns_no_object k
  end.

(** Every object in the heap was made before the next one to come. *)
Definition heap_below (st : state) : Prop :=
  ∀ l, is_Some (heap st !! l) → (l < next_loc st)%nat.

(** Objects are made and never unmade, each at a location of its own. *)
Definition objects_kept (st st' : state) : Prop :=
  (next_loc st ≤ next_loc st')%nat ∧
  (∀ l, is_Some (heap st !! l) → is_Some (heap st' !! l)) ∧
  (heap_below st → heap_below st').

(** *** Scanned directories *)

(** The [.js] files of a directory, in the order the scan meets them,
    directories being entered where they stand. *)
Fixpoint js_files (file : fs_entry) : list loaded :=
  match file with
  | Directory files =>
      (fix each (files : list fs_entry) : list loaded :=
         match files with
         | [] => []
         | file :: rest => (js_files file ++ each rest)%list
         end) files
  | File extname fullPath =>
      if String.eqb extname ".js" then [fullPath] else []
  end.

(** [addFile] on each file of a list in turn, up to the first that
    throws. *)
Fixpoint addFiles (files : list loaded) (prefix : string) : M unit :=
  match files with
  | [] => ret tt
  | fullPath :: rest =>
      let! _ := addFile fullPath (Some prefix) in addFiles rest prefix
  end.

(** The loop of [addDirectory] over the entries of one directory. *)
Definition addDirectory_files (prefix : string) : list fs_entry → M unit :=
  fix loop (files : list fs_entry) : M unit :=
    match files with
    | [] => ret tt
    | file :: rest => let! _ := addDirectory_entry prefix file in loop rest
    end.

(** What a scan with prefix [p] may have done to the container: every
    entry is as it was, every new name starts with [p], and nothing else
    has changed: no object was made, no module asked for. *)
Definition scanned (p : string) (st st' : state) : Prop :=
  (∀ n d, container st !! n = Some d → container st' !! n = Some d) ∧
  (∀ n, container st !! n = None → is_Some (container st' !! n) →
        String.prefix p n = true) ∧
  st' = with_container (container st') st.

(** What later calls may have made of a container: any number of calls
    of [get], of [getClass] and of the registration operations, whatever
    their outcome. *)
Inductive later : state → state → Prop :=
| later_now st : later st st
| later_get st st1 fuel depName :
    later st st1 → later st (snd (get fuel depName st1))
| later_getClass st st1 depName :
    later st st1 → later st (snd (getClass depName st1))
| later_register st st1 r :
    later st st1 → later st (snd (register r st1))
| later_addDirectory st st1 directory prefix :
    later st st1 → later st (snd (addDirectory directory prefix st1)).


End Further.

(** ** Further example containers and directories *)

Module MoreExamples.

Import Container Spec Examples Further.

(** [module.exports = C; module.exports['singleton'] = false] *)
Definition transient_exports (c : function_object) : Required.t :=
  {| Required.prototype := Some c; Required.depName := None;
     Required.singleton := VBool false; Required.ignore := None;
     Required.factory := None; Required.constant := None;
     Required.function := None |}.

(** [module.exports = {depName: name, constant: v}], and the same without
    [depName]. *)
Definition constant_exports (depName : option string) (v : value)
    : Required.t :=
  {| Required.prototype := None; Required.depName := depName;
     Required.singleton := VUndefined; Required.ignore := None;
     Required.factory := None; Required.constant := Some v;
     Required.function := None |}.

(** The README's [Database], which reads its settings from [Config], and a
    variant that also wants a module that is not installed. *)
Definition Database : function_object :=
  {| name := "Database";
     toString := "class Database {
    constructor(Config) {
        this.user = Config;
    }
}";
     construct := fun this values =>
       SetField this "user" (nth 0 values VUndefined) (Return VUndefined) |}.

Definition Store : function_object :=
  {| name := "Store";
     toString := "class Store {
    constructor(Config, redisClient, Database) {
        this.config = Config;
    }
}";
     construct := fun this values =>
       SetField this "config" (nth 0 values VUndefined) (Return VUndefined) |}.

(** A class without constructor, exported with [singleton] false. *)
Definition Puppy : function_object :=
  {| name := "Puppy";
     toString := "class Puppy {
    bark() {
        return 'Woof';
    }
}";
     construct := fun _ _ => Return VUndefined |}.

Definition database_entries : gmap string dependency :=
  <["Store" := class_definition (Some ["Config"; "redisClient"; "Database"])
                 (exports Store) true]>
    (<["Database" := class_definition (Some ["Config"]) (exports Database) true]>
       (<["Puppy" := class_definition None (transient_exports Puppy) false]>
          (<["Config" := constant_definition (VStr "bob")]> ∅))).

Definition database_container : state :=
  with_container database_entries empty_container.

(** A source directory: two classes at the top, a text file, and a
    directory with a constant and an empty directory. *)
Definition source_directory : list fs_entry :=
  [ File ".js" (Exports (exports Ball));
    File ".md" (Exports (exports Dog));
    Directory [ File ".js" (Exports (constant_exports (Some "Config") (VStr "bob")));
                Directory [] ];
    File ".js" (Exports (exports Dog)) ].

(** A directory with nothing to scan. *)
Definition documents_directory : list fs_entry :=
  [ File ".md" (Exports (exports Dog));
    Directory [ File ".json" (Exports (exports Ball)) ] ].

(** A directory whose second file throws while it is loaded. *)
Definition broken_directory : list fs_entry :=
  [ File ".js" (Exports (exports Database));
    File ".js" (Throws "Unexpected token");
    File ".js" (Exports (exports Puppy)) ].

End MoreExamples.

(** ** Properties of the name-casing helpers *)

Section KebabCase.

Import Util NameResolver.

Lemma maximal_runs_head c s :
  ∃ r rs, maximal_runs (String c s) = (is_upper_or_digit c, String c r) :: rs.
Proof.
  simpl. destruct (maximal_runs s) as [|[b' r] rs]; [by eauto|].
  destruct (Bool.eqb _ _); eauto.
Qed.

Lemma maximal_runs_span c s :
  is_upper_or_digit c = true →
  maximal_runs (String c s) =
    (true, String c (fst (span_upper_or_digit s)))
      :: maximal_runs (snd (span_upper_or_digit s)).
Proof.
  revert c. induction s as [|d s IH]; intros c Hc.
  - simpl. by rewrite Hc.
  - destruct (is_upper_or_digit d) eqn:Hd.
    + change (maximal_runs (String c (String d s))) with
        (let b := is_upper_or_digit c in
         match maximal_runs (String d s) with
         | (b', r) :: rs =>
             if Bool.eqb b b' then (b, String c r) :: rs
             else (b, String c EmptyString) :: (b', r) :: rs
         | [] => [(b, String c EmptyString)]
         end).
      rewrite (IH d Hd). cbn [span_upper_or_digit]. rewrite Hd, Hc.
      destruct (span_upper_or_digit s); reflexivity.
    + destruct (maximal_runs_head d s) as (r & rs & Hr).
      change (maximal_runs (String c (String d s))) with
        (let b := is_upper_or_digit c in
         match maximal_runs (String d s) with
         | (b', r) :: rs =>
             if Bool.eqb b b' then (b, String c r) :: rs
             else (b, String c EmptyString) :: (b', r) :: rs
         | [] => [(b, String c EmptyString)]
         end).
      cbn [span_upper_or_digit]. rewrite Hd. cbn [fst snd].
      rewrite Hr, Hc, Hd. reflexivity.
Qed.

Lemma toDashCase_other c s :
  is_upper_or_digit c = false →
  toDashCase (String c s) = String c (toDashCase s).
Proof.
  intros Hc. unfold toDashCase. simpl. rewrite Hc.
  destruct (maximal_runs s) as [|[[] r] rs]; reflexivity.
Qed.

Lemma span_upper_or_digit_length s :
  (String.length (snd (span_upper_or_digit s)) ≤ String.length s)%nat.
Proof.
  induction s as [|c s IH]; simpl; [lia|].
  destruct (is_upper_or_digit c); simpl; [|lia].
  destruct (span_upper_or_digit s); simpl in *; lia.
Qed.

(** The scan never runs out of steps: it visits each position at most
    once. *)
Lemma replace_matches_toDashCase (steps : nat) :
  ∀ s, (String.length s ≤ steps)%nat → replace_matches steps s = toDashCase s.
Proof.
  induction steps as [|steps IH]; intros [|c s] Hlen; simpl in Hlen;
    [reflexivity|lia|reflexivity|].
  cbn [replace_matches]. destruct (is_upper_or_digit c) eqn:Hc.
  - unfold toDashCase at 1. rewrite (maximal_runs_span _ _ Hc).
    cbn [map concat_strings dash_run fst snd].
    pose proof (span_upper_or_digit_length s) as Hspan.
    destruct (span_upper_or_digit s) as [more rest]. simpl in Hspan.
    rewrite IH; [reflexivity|lia].
  - rewrite (toDashCase_other _ _ Hc), IH; [reflexivity|lia].
Qed.

Lemma kebabCase_toDashCase s : kebabCase s = toDashCase s.
Proof. apply replace_matches_toDashCase. lia. Qed.

Lemma maximal_runs_concat s :
  concat_strings (map snd (maximal_runs s)) = s.
Proof.
  induction s as [|c s IH]; [reflexivity|]. simpl.
  destruct (maximal_runs s) as [|[b' r] rs]; simpl in *.
  - by rewrite <- IH.
  - destruct (Bool.eqb _ _); simpl; by rewrite <- IH.
Qed.

Lemma maximal_runs_are_runs s : Forall is_run (maximal_runs s).
Proof.
  induction s as [|c s IH]; [constructor|]. simpl.
  destruct (maximal_runs s) as [|[b' r] rs].
  - constructor; [|constructor]. split; [done|]. simpl.
    by rewrite Bool.eqb_reflx.
  - destruct (Bool.eqb _ _) eqn:Hb.
    + apply Forall_cons in IH as [[Hne Hall] Hrs].
      constructor; [|done]. split; [done|]. simpl in *.
      apply Bool.eqb_prop in Hb. rewrite Hb, Hall.
      by rewrite Bool.eqb_reflx.
    + constructor; [|done]. split; [done|]. simpl.
      by rewrite Bool.eqb_reflx.
Qed.

Lemma maximal_runs_alternate s : alternate (maximal_runs s).
Proof.
  induction s as [|c s IH]; [done|].
  destruct (maximal_runs_head c s) as (r0 & rs0 & Hhead).
  simpl in *. destruct (maximal_runs s) as [|[b' r] rs]; [done|].
  destruct (Bool.eqb _ _) eqn:Hb.
  - apply Bool.eqb_prop in Hb. destruct rs as [|r2 rs]; [done|].
    destruct IH as [Hne IH]. split; [|done]. simpl in *. congruence.
  - split; [|done]. simpl. intros Heq. rewrite Heq in Hb.
    by rewrite Bool.eqb_reflx in Hb.
Qed.

(** C7: [kebabCase] (the specification's [toDashCase]) is a total function
    that cuts its input into its maximal runs of uppercase letters or
    digits and of other characters, replaces each run of the first kind by
    a dash followed by the run in lower case and leaves the others as they
    are; so [socketIo] becomes [socket-io] and [appleOrange2] becomes
    [apple-orange-2]. *)
Theorem kebabCase_replaces_maximal_runs (str : string) :
  let runs := maximal_runs str in
  concat_strings (map snd runs) = str ∧
  Forall is_run runs ∧
  alternate runs ∧
  kebabCase str = concat_strings (map dash_run runs) ∧
  kebabCase "socketIo" = "socket-io" ∧
  kebabCase "appleOrange2" = "apple-orange-2".
Proof.
  cbv zeta. split; [apply maximal_runs_concat|].
  split; [apply maximal_runs_are_runs|].
  split; [apply maximal_runs_alternate|].
  split; [apply kebabCase_toDashCase|].
  split; reflexivity.
Qed.

End KebabCase.

(** ** Properties of the container *)

Import Container Spec Examples.

(** *** Registration *)

Section Registration.




(** The two ways [_setDependency] ends. *)
Lemma setDependency_inv name d st r st' :
  _setDependency name d st = (r, st') →
  (r = Err (DuplicateDependency name) ∧ st' = st ∧ has name st = true) ∨
  (r = Ok tt ∧ st' = with_container (<[name := d]> (container st)) st ∧
   container st !! name = None ∧ inherited name = false).
Proof.
  unfold _setDependency, has.
  destruct (container st !! name) as [d0|] eqn:Hd; [intros [= <- <-]; by left|].
  destruct (inherited name) eqn:Hi; intros [= <- <-]; [by left|by right].
Qed.




End Registration.

(** *** getClass *)

Section GetClass.

Lemma same_definition_fields d d' :
  same_definition d d' →
  args d = args d' ∧ file d = file d' ∧ isClass d = isClass d' ∧
  isSingleton d = isSingleton d' ∧ constant d = constant d' ∧
  isConstant d = isConstant d' ∧ function d = function d' ∧
  isFunction d = isFunction d' ∧ factory d = factory d' ∧
  isFactory d = isFactory d'.
Proof.
  unfold same_definition, without_instance. intros Heq.
  injection Heq as -> -> -> -> -> -> -> -> -> ->. by repeat split.
Qed.

Lemma has_registered st n d0 : registered st n d0 → has n st = true.
Proof. intros (d & H & _). unfold has. by rewrite H. Qed.



(** C8: [getClass] on a name registered as a factory definition throws
    nothing: it returns the definition's [file] property, which a factory
    definition does not have, that is [undefined]. *)
Theorem getClass_factory_undefined (depName : string) (st : state)
    (f : value → prog) :
  registered st depName (factory_definition f) →
  getClass depName st = (Ok None, st) ∧
  file (factory_definition f) = None.
Proof.
  intros (d & Hd & Hsame). split; [|done].
  apply same_definition_fields in Hsame as (_ & Hfile & _ & _ & _ & Hc & _ & Hf & _).
  unfold getClass, has. rewrite Hd. simpl in *.
  by rewrite <- Hf, <- Hc, <- Hfile.
Qed.

End GetClass.

(** *** External modules *)

Section NodeModules.

Lemma with_resolved_twice r r' st :
  with_resolved r' (with_resolved r st) = with_resolved r' st.
Proof. reflexivity. Qed.

Lemma get_falls_through fuel depName st :
  falls_through depName st = true →
  get (S fuel) depName st = _getNodeModule depName st.
Proof. unfold falls_through. intros H. simpl. unfold get_body. by rewrite H. Qed.

(** C3: external-module resolution asks the provider for the name as it
    is, then for its dash-case form, then for the dash-case form with dots
    for dashes, in that order and stopping at the first name the provider
    resolves, whose module it returns; when none of the three resolves it
    throws the external-module-not-found error.  [get] hands over to it
    whenever it falls through. *)
Theorem getNodeModule_tries_three_names (depName : string) (st : state) :
  let dashName := Util.kebabCase depName in
  let dotName := dashes_to_dots dashName in
  let asked names := with_resolved (resolved st ++ names) st in
  _getNodeModule depName st =
    match node_modules st !! depName,
          node_modules st !! dashName,
          node_modules st !! dotName with
    | Some m, _, _ => (Ok m, asked [depName])
    | None, Some m, _ => (Ok m, asked [depName; dashName])
    | None, None, Some m => (Ok m, asked [depName; dashName; dotName])
    | None, None, None =>
        (Err (CouldNotFindNpmModule depName),
         asked [depName; dashName; dotName])
    end ∧
  kind_of (CouldNotFindNpmModule depName) = ExternalModuleNotFoundError ∧
  (∀ fuel, falls_through depName st = true →
           get (S fuel) depName st = _getNodeModule depName st).
Proof.
  cbv zeta. split; [|split; [done|]].
  - unfold _getNodeModule, bind, nodeModuleExists, require, throw. simpl.
    destruct (node_modules st !! depName) as [m|] eqn:H1; simpl.
    { by rewrite H1. }
    destruct (node_modules st !! Util.kebabCase depName) as [m|] eqn:H2; simpl.
    { rewrite H2. unfold with_resolved; simpl. by rewrite <- app_assoc. }
    destruct (node_modules st !! dashes_to_dots (Util.kebabCase depName))
      as [m|] eqn:H3; simpl.
    { rewrite H3. unfold with_resolved; simpl. by rewrite <- !app_assoc. }
    unfold with_resolved; simpl. by rewrite <- !app_assoc.
  - intros fuel. apply get_falls_through.
Qed.

End NodeModules.

(** *** What resolution changes *)

Section Frame.

Lemma is_object_truthy v : is_object v = true → truthy v = true.
Proof. by destruct v. Qed.

Lemma same_definition_refl d : same_definition d d.
Proof. reflexivity. Qed.

Lemma same_definition_trans d1 d2 d3 :
  same_definition d1 d2 → same_definition d2 d3 → same_definition d1 d3.
Proof. unfold same_definition. congruence. Qed.

Lemma same_definition_set_instance v d : same_definition d (set_instance v d).
Proof. reflexivity. Qed.

Lemma same_definition_eq d d' :
  same_definition d d' → instance d = instance d' → d = d'.
Proof.
  destruct d, d'. unfold same_definition, without_instance. simpl.
  intros [=] ->. by subst.
Qed.

Lemma same_definition_cached d d' :
  same_definition d d' → instance d = instance d' → cached d = cached d'.
Proof. intros Hs Hi. by rewrite (same_definition_eq _ _ Hs Hi). Qed.

Lemma same_definition_constructed d d' :
  same_definition d d' → constructed_singleton d' → constructed_singleton d.
Proof.
  intros Hs. apply same_definition_fields in Hs
    as (Ha & _ & _ & Hsing & _ & Hc & _ & Hf & _ & Hfac).
  unfold constructed_singleton. by rewrite Ha, Hsing, Hc, Hf, Hfac.
Qed.

Lemma entry_kept_refl d : entry_kept d d.
Proof. by repeat split. Qed.

Lemma entry_kept_trans d1 d2 d3 :
  entry_kept d1 d2 → entry_kept d2 d3 → entry_kept d1 d3.
Proof.
  intros (Hs12 & Hc12 & Hi12) (Hs23 & Hc23 & Hi23).
  split; [by eapply same_definition_trans|]. split.
  - intros Hc. rewrite (Hc12 Hc) in *. by apply Hc23.
  - intros Hne. destruct (decide (instance d2 = instance d1)) as [Heq|Hne12].
    + rewrite <- Heq in Hne. destruct (Hi23 Hne) as (Hnc & Hcs & v & Hv & Hobj).
      split; [by rewrite (same_definition_cached _ _ Hs12 (eq_sym Heq))|].
      split; [by eapply same_definition_constructed|]. eauto.
    + destruct (Hi12 Hne12) as (Hnc & Hcs & v & Hv & Hobj).
      split; [done|]. split; [done|]. exists v. split; [|done].
      assert (cached d2 = true) as Hc2.
      { unfold cached. rewrite Hv, (is_object_truthy _ Hobj).
        destruct Hcs as (Hsing & _).
        apply same_definition_fields in Hs12 as (_ & _ & _ & <- & _).
        by rewrite Hsing. }
      by rewrite (Hc23 Hc2).
Qed.

Lemma entries_kept_refl st : entries_kept st st.
Proof. repeat split. intros n d H. exists d. split; [done|]. apply entry_kept_refl. Qed.

Lemma entries_kept_trans st1 st2 st3 :
  entries_kept st1 st2 → entries_kept st2 st3 → entries_kept st1 st3.
Proof.
  intros (Hc12 & Hm12 & H12) (Hc23 & Hm23 & H23).
  split; [congruence|]. split; [congruence|].
  intros n d Hd. destruct (H12 n d Hd) as (d2 & Hd2 & Hk2).
  destruct (H23 n d2 Hd2) as (d3 & Hd3 & Hk3).
  exists d3. split; [done|]. by eapply entry_kept_trans.
Qed.

Lemma nothing_added_trans st1 st2 st3 :
  nothing_added st1 st2 → nothing_added st2 st3 → nothing_added st1 st3.
Proof. unfold nothing_added. eauto. Qed.

Lemma kept_refl strict st : kept strict st st.
Proof. split; [apply entries_kept_refl|]. by intros _ n. Qed.

Lemma kept_trans strict st1 st2 st3 :
  kept strict st1 st2 → kept strict st2 st3 → kept strict st1 st3.
Proof.
  intros [H12 A12] [H23 A23]. split; [by eapply entries_kept_trans|].
  intros Hs. eapply nothing_added_trans; eauto.
Qed.

Lemma kept_with_heap strict n h st : kept strict st (with_heap n h st).
Proof. split; [|by intros _ m]. repeat split. intros m d H. exists d. split; [done|apply entry_kept_refl]. Qed.

Lemma kept_with_resolved strict r st : kept strict st (with_resolved r st).
Proof. split; [|by intros _ m]. repeat split. intros m d H. exists d. split; [done|apply entry_kept_refl]. Qed.

Lemma kept_with_user_registrations strict names st :
  kept strict st (with_user_registrations names st).
Proof. split; [|by intros _ m]. repeat split. intros m d H. exists d. split; [done|apply entry_kept_refl]. Qed.

(** Entries of a later container come from the earlier one when nothing
    was added. *)
Lemma kept_lookup_back st st' n d' :
  kept true st st' → container st' !! n = Some d' →
  ∃ d, container st !! n = Some d ∧ entry_kept d d'.
Proof.
  intros [(_ & _ & Hk) Hadd] Hd'.
  destruct (container st !! n) as [d|] eqn:Hd.
  - destruct (Hk n d Hd) as (d2 & Hd2 & Hkept). exists d. split; [done|]. congruence.
  - rewrite (Hadd eq_refl n Hd) in Hd'. done.
Qed.

Lemma user_code_same_definition d d' p :
  same_definition d d' → user_code d p → user_code d' p.
Proof.
  intros Hs. apply same_definition_fields in Hs
    as (_ & Hfile & _ & _ & _ & _ & _ & _ & Hfac & _).
  unfold user_code. by rewrite Hfile, Hfac.
Qed.

Lemma quiet_kept st st' : kept true st st' → quiet st → quiet st'.
Proof.
  intros Hk Hq n d' p Hd' Hp.
  destruct (kept_lookup_back _ _ _ _ Hk Hd') as (d & Hd & Hs & _).
  apply (Hq n d p Hd). eapply user_code_same_definition; [|done].
  unfold same_definition in *. congruence.
Qed.

Lemma halting_kept st st' : kept true st st' → halting st → halting st'.
Proof.
  intros Hk Hh n d' p Hd' Hp.
  destruct (kept_lookup_back _ _ _ _ Hk Hd') as (d & Hd & Hs & _).
  apply (Hh n d p Hd). eapply user_code_same_definition; [|done].
  unfold same_definition in *. congruence.
Qed.

End Frame.

Section FrameOfGet.

Variable strict : bool.

(** The [get] that user code and [get]'s own body call back. *)
Variable this_get : string → M value.

Hypothesis this_get_kept :
  ∀ n st r st',
    (strict = true → quiet st) → this_get n st = (r, st') → kept strict st st'.

Lemma quiet_after st st' :
  (strict = true → quiet st) → kept strict st st' → strict = true → quiet st'.
Proof.
  intros Hq Hk Hs. subst strict. eapply quiet_kept; eauto.
Qed.

Lemma setDependency_kept name d st r st' :
  _setDependency name d st = (r, st') → kept false st st'.
Proof.
  intros [(-> & -> & _)|(-> & -> & Hn & _)]%setDependency_inv.
  - apply kept_refl.
  - split; [|done]. repeat split. intros n d0 Hd0. exists d0.
    split; [|apply entry_kept_refl]. simpl.
    rewrite lookup_insert_ne; [done|]. intros ->. congruence.
Qed.

Lemma by_user_code_kept name d st r st' :
  by_user_code name (_setDependency name d) st = (r, st') → kept false st st'.
Proof.
  unfold by_user_code.
  destruct (_setDependency name d st) as [[[]| |] st1] eqn:Hset;
    pose proof (setDependency_kept _ _ _ _ _ Hset) as Hk; intros [= <- <-];
    [|done..].
  eapply kept_trans; [exact Hk|]. apply kept_with_user_registrations.
Qed.

(** User code that registers: ruled out when [strict], and otherwise a
    call of [_setDependency] followed by the rest of the code. *)
Ltac registration_kept Hp Hrun IH :=
  destruct strict eqn:?; [by destruct (Hp eq_refl)|];
  unfold bind, addConstant, addFunction, addFactory in Hrun;
  match type of Hrun with
  | context [by_user_code ?n ?m ?st] =>
      let Hset := fresh "Hset" in
      destruct (by_user_code n m st) as [[[]| |] ?] eqn:Hset;
      pose proof (by_user_code_kept _ _ _ _ _ Hset);
      [eapply kept_trans; [eassumption|]; eapply IH; [done|done|exact Hrun]
      |by injection Hrun as <- <-..]
  end.

Lemma run_kept p :
  ∀ st r st',
    (strict = true → quiet st) → (strict = true → registers_nothing p) →
    run this_get p st = (r, st') → kept strict st st'.
Proof.
  induction p as [v|msg| |m k IH|n c k IH|n f k IH|n f IHf k IH|k IH|l fld v k IH];
    intros st r st' Hq Hp Hrun; simpl in Hrun.
  - injection Hrun as <- <-. apply kept_refl.
  - injection Hrun as <- <-. apply kept_refl.
  - injection Hrun as <- <-. apply kept_refl.
  - unfold bind in Hrun. destruct (this_get m st) as [[v| |] st1] eqn:Hg.
    + pose proof (this_get_kept _ _ _ _ Hq Hg) as H1.
      eapply kept_trans; [exact H1|].
      eapply IH; [|  |exact Hrun].
      * by apply (quiet_after st).
      * intros Hs. apply (Hp Hs).
    + injection Hrun as <- <-. eapply this_get_kept; eauto.
    + injection Hrun as <- <-. eapply this_get_kept; eauto.
  - registration_kept Hp Hrun IH.
  - registration_kept Hp Hrun IH.
  - registration_kept Hp Hrun IH.
  - eapply kept_trans; [apply (kept_with_heap strict (S (next_loc st))
                                (<[next_loc st := ∅]> (heap st)) st)|].
    eapply IH; [| |exact Hrun].
    + intros Hs. eapply (quiet_after st); eauto using kept_with_heap.
    + intros Hs. apply (Hp Hs).
  - eapply kept_trans; [apply (kept_with_heap strict (next_loc st)
                                (alter (λ o, <[fld := v]> o) l (heap st)) st)|].
    eapply IH; [| |exact Hrun].
    + intros Hs. eapply (quiet_after st); eauto using kept_with_heap.
    + intros Hs. apply (Hp Hs).
Qed.

Lemma get_args_kept names :
  ∀ st r st',
    (strict = true → quiet st) →
    get_args this_get names st = (r, st') → kept strict st st'.
Proof.
  induction names as [|arg rest IH]; intros st r st' Hq Hrun; simpl in Hrun.
  - injection Hrun as <- <-. apply kept_refl.
  - unfold bind in Hrun. destruct (this_get arg st) as [[v| |] st1] eqn:Hg;
      pose proof (this_get_kept _ _ _ _ Hq Hg) as H1.
    + destruct (get_args this_get rest st1) as [[vs| |] st2] eqn:Hrest;
        injection Hrun as <- <-;
        (eapply kept_trans; [exact H1|]);
        (eapply IH; [|exact Hrest]); by apply (quiet_after st).
    + by injection Hrun as <- <-.
    + by injection Hrun as <- <-.
Qed.

Lemma new_kept file values st r st' :
  (strict = true → quiet st) →
  (strict = true →
   ∀ requiredFile c l,
     file = Some requiredFile → Required.prototype requiredFile = Some c →
     registers_nothing (construct c l values)) →
  new this_get file values st = (r, st') → kept strict st st'.
Proof.
  intros Hq Hp. unfold new.
  destruct file as [requiredFile|]; [|intros [= <- <-]; apply kept_refl].
  destruct (Required.prototype requiredFile) as [c|] eqn:Hc;
    [|intros [= <- <-]; apply kept_refl].
  unfold bind, ret.
  destruct (run this_get _ _) as [[v| |] st1] eqn:Hrun; intros [= <- <-];
    (eapply kept_trans; [apply (kept_with_heap strict (S (next_loc st))
                                  (<[next_loc st := ∅]> (heap st)) st)|]);
    (eapply run_kept;
     [intros Hs; eapply (quiet_after st); eauto using kept_with_heap
     |intros Hs; eapply Hp; eauto
     |exact Hrun]).
Qed.

Lemma new_is_object file values st v st' :
  new this_get file values st = (Ok v, st') → is_object v = true.
Proof.
  unfold new. destruct file as [requiredFile|]; [|done].
  destruct (Required.prototype requiredFile) as [c|]; [|done].
  unfold bind, ret. destruct (run this_get _ _) as [[r| |] st1]; [|done|done].
  intros [= <- <-]. by destruct (is_object r) eqn:Hr.
Qed.

Lemma require_state name st : snd (require name st) = st.
Proof. unfold require. by destruct (node_modules st !! name). Qed.

Lemma getNodeModule_state depName st :
  ∃ names, snd (_getNodeModule depName st) = with_resolved names st.
Proof.
  unfold _getNodeModule, bind, nodeModuleExists, throw. simpl.
  destruct (bool_decide _); [rewrite require_state; by eexists|]. simpl.
  destruct (bool_decide _); [rewrite require_state; by eexists|]. simpl.
  destruct (bool_decide _); [rewrite require_state; by eexists|]. simpl.
  by eexists.
Qed.

Lemma getNodeModule_kept depName st r st' :
  _getNodeModule depName st = (r, st') → kept strict st st'.
Proof.
  intros H. destruct (getNodeModule_state depName st) as [names Hn].
  rewrite H in Hn. simpl in Hn. subst st'. apply kept_with_resolved.
Qed.

Lemma cache_instance_kept depName inst d st0 st :
  container st0 !! depName = Some d →
  cached d = false → constructed_singleton d → is_object inst = true →
  kept strict st0 st →
  kept strict st0
    (with_container (alter (set_instance inst) depName (container st)) st).
Proof.
  intros Hd Hnc Hcs Hobj [(Hcfg & Hmod & Hk) Hadd]. split.
  - split; [done|]. split; [done|]. intros n d0 Hd0.
    destruct (Hk n d0 Hd0) as (d2 & Hd2 & Hkept). simpl.
    destruct (decide (n = depName)) as [->|Hne].
    + exists (set_instance inst d2). rewrite lookup_alter_eq, Hd2.
      split; [done|]. assert (d0 = d) as -> by congruence.
      destruct Hkept as (Hsame & _ & _). split; [|split].
      * eapply same_definition_trans; [exact Hsame|]. apply same_definition_set_instance.
      * congruence.
      * intros _. split; [done|]. split; [done|]. by exists inst.
    + exists d2. by rewrite lookup_alter_ne.
  - intros Hs n Hn. simpl. destruct (decide (n = depName)) as [Heq|Hne].
    + rewrite Heq, lookup_alter_eq, <- Heq. by rewrite (Hadd Hs _ Hn).
    + rewrite lookup_alter_ne; [|done]. by apply Hadd.
Qed.

Lemma get_body_kept depName st r st' :
  (strict = true → quiet st) →
  get_body this_get depName st = (r, st') → kept strict st st'.
Proof.
  intros Hq. unfold get_body.
  destruct (starts_with_nodeModulePrefix depName st || negb (has depName st));
    [apply getNodeModule_kept|].
  destruct (container st !! depName) as [d|] eqn:Hd;
    [|intros [= <- <-]; apply kept_refl].
  destruct (cached d) eqn:Hcached; [intros [= <- <-]; apply kept_refl|].
  destruct (isFunction d) eqn:Hfun; [intros [= <- <-]; apply kept_refl|].
  destruct (isConstant d) eqn:Hconst; [intros [= <- <-]; apply kept_refl|].
  destruct (isFactory d) eqn:Hfac.
  { destruct (factory d) as [f|] eqn:Hf; [|intros [= <- <-]; apply kept_refl].
    intros Hrun. eapply run_kept; [done| |exact Hrun].
    intros Hs. apply (Hq Hs depName d); [done|]. left. eauto. }
  assert (strict = true →
          ∀ values requiredFile c l,
            file d = Some requiredFile →
            Required.prototype requiredFile = Some c →
            registers_nothing (construct c l values)) as Hctor.
  { intros Hs values requiredFile c l HF Hc. apply (Hq Hs depName d); [done|].
    right. by exists requiredFile, c, l, values. }
  destruct (args d) as [names|] eqn:Hargs.
  - unfold bind.
    destruct (get_args this_get names st) as [[values| |] st1] eqn:Hga;
      pose proof (get_args_kept _ _ _ _ Hq Hga) as H1;
      [|by intros [= <- <-]..].
    destruct (new this_get (file d) values st1) as [[inst| |] st2] eqn:Hnew;
      (assert (kept strict st st2) as H2;
       [eapply kept_trans; [exact H1|];
        eapply new_kept; [| |exact Hnew];
        [by apply (quiet_after st)|intros Hs; by apply Hctor]|]);
      [|by intros [= <- <-]..].
    destruct (isSingleton d) eqn:Hsing; unfold cache_instance, ret;
      intros [= <- <-]; [|done].
    eapply cache_instance_kept; eauto using new_is_object.
    by repeat split.
  - intros Hnew. eapply new_kept; [done| |exact Hnew].
    intros Hs. by apply Hctor.
Qed.

End FrameOfGet.

Lemma get_kept strict fuel :
  ∀ depName st r st',
    (strict = true → quiet st) →
    get fuel depName st = (r, st') → kept strict st st'.
Proof.
  induction fuel as [|fuel IH]; intros depName st r st' Hq; simpl.
  - intros [= <- <-]. apply kept_refl.
  - apply get_body_kept; [|done]. exact IH.
Qed.

(** *** What every step of [get] respects *)

Section Steps.

(** A relation between the state before and after that every step of
    resolution respects. *)
Variable R : state → state → Prop.

Hypothesis R_refl : ∀ st, R st st.
Hypothesis R_trans : ∀ st1 st2 st3, R st1 st2 → R st2 st3 → R st1 st3.
Hypothesis R_register :
  ∀ name d st r st',
    by_user_code name (_setDependency name d) st = (r, st') → R st st'.
Hypothesis R_cache :
  ∀ depName inst st,
    R st (with_container (alter (set_instance inst) depName (container st)) st).
Hypothesis R_resolved : ∀ r st, R st (with_resolved r st).
Hypothesis R_new :
  ∀ st, R st (with_heap (S (next_loc st)) (<[next_loc st := ∅]> (heap st)) st).
Hypothesis R_set :
  ∀ l f v st,
    R st (with_heap (next_loc st) (alter (λ o, <[f := v]> o) l (heap st)) st).

Lemma getNodeModule_step depName st r st' :
  _getNodeModule depName st = (r, st') → R st st'.
Proof.
  intros H. destruct (getNodeModule_state depName st) as [names Hn].
  rewrite H in Hn. simpl in Hn. subst st'. apply R_resolved.
Qed.

Variable this_get : string → M value.
Hypothesis this_get_step : ∀ n st r st', this_get n st = (r, st') → R st st'.

(** A call followed by the rest of the code. *)
Ltac then_step Hrun Hfirst IH :=
  unfold bind in Hrun;
  match type of Hrun with
  | context [match ?m ?st with _ => _ end] =>
      let H := fresh "Hcall" in
      destruct (m st) as [[?| |] ?] eqn:H;
      [eapply R_trans; [eapply Hfirst, H|eapply IH, Hrun]
      |injection Hrun as <- <-; eapply Hfirst, H..]
  end.

Lemma run_step p : ∀ st r st', run this_get p st = (r, st') → R st st'.
Proof.
  induction p as [v|msg| |m k IH|n c k IH|n f k IH|n f IHf k IH|k IH|l fld v k IH];
    intros st r st' Hrun; simpl in Hrun.
  - injection Hrun as <- <-. apply R_refl.
  - injection Hrun as <- <-. apply R_refl.
  - injection Hrun as <- <-. apply R_refl.
  - then_step Hrun this_get_step IH.
  - unfold addConstant in Hrun. then_step Hrun R_register IH.
  - unfold addFunction in Hrun. then_step Hrun R_register IH.
  - unfold addFactory in Hrun. then_step Hrun R_register IH.
  - eapply R_trans; [apply R_new|]. eapply IH, Hrun.
  - eapply R_trans; [apply R_set|]. eapply IH, Hrun.
Qed.

Lemma get_args_step names :
  ∀ st r st', get_args this_get names st = (r, st') → R st st'.
Proof.
  induction names as [|arg rest IH]; intros st r st' Hrun; simpl in Hrun.
  - injection Hrun as <- <-. apply R_refl.
  - unfold bind in Hrun. destruct (this_get arg st) as [[v| |] st1] eqn:Hg;
      pose proof (this_get_step _ _ _ _ Hg) as H1.
    + destruct (get_args this_get rest st1) as [[vs| |] st2] eqn:Hrest;
        injection Hrun as <- <-; eapply R_trans; eauto.
    + by injection Hrun as <- <-.
    + by injection Hrun as <- <-.
Qed.

Lemma new_step file values st r st' :
  new this_get file values st = (r, st') → R st st'.
Proof.
  unfold new. destruct file as [requiredFile|]; [|intros [= <- <-]; apply R_refl].
  destruct (Required.prototype requiredFile) as [c|];
    [|intros [= <- <-]; apply R_refl].
  unfold bind, ret.
  destruct (run this_get _ _) as [[v| |] st1] eqn:Hrun; intros [= <- <-];
    (eapply R_trans; [apply R_new|]); eapply run_step, Hrun.
Qed.

Lemma get_body_step depName st r st' :
  get_body this_get depName st = (r, st') → R st st'.
Proof.
  unfold get_body.
  destruct (starts_with_nodeModulePrefix depName st || negb (has depName st));
    [apply getNodeModule_step|].
  destruct (container st !! depName) as [d|]; [|intros [= <- <-]; apply R_refl].
  destruct (cached d); [intros [= <- <-]; apply R_refl|].
  destruct (isFunction d); [intros [= <- <-]; apply R_refl|].
  destruct (isConstant d); [intros [= <- <-]; apply R_refl|].
  destruct (isFactory d).
  { destruct (factory d) as [f|]; [apply run_step|].
    intros [= <- <-]; apply R_refl. }
  destruct (args d) as [names|]; [|apply new_step].
  unfold bind.
  destruct (get_args this_get names st) as [[values| |] st1] eqn:Hga;
    pose proof (get_args_step _ _ _ _ Hga) as H1; [|by intros [= <- <-]..].
  destruct (new this_get (file d) values st1) as [[inst| |] st2] eqn:Hnew;
    pose proof (new_step _ _ _ _ _ Hnew) as H2;
    [|intros [= <- <-]; eapply R_trans; eauto..].
  destruct (isSingleton d); unfold cache_instance, ret; intros [= <- <-].
  - eapply R_trans; [exact H1|]. eapply R_trans; [exact H2|]. apply R_cache.
  - eapply R_trans; eauto.
Qed.

End Steps.

Lemma get_step (R : state → state → Prop) :
  (∀ st, R st st) →
  (∀ st1 st2 st3, R st1 st2 → R st2 st3 → R st1 st3) →
  (∀ name d st r st',
     by_user_code name (_setDependency name d) st = (r, st') → R st st') →
  (∀ depName inst st,
     R st (with_container (alter (set_instance inst) depName (container st)) st)) →
  (∀ r st, R st (with_resolved r st)) →
  (∀ st, R st (with_heap (S (next_loc st)) (<[next_loc st := ∅]> (heap st)) st)) →
  (∀ l f v st,
     R st (with_heap (next_loc st) (alter (λ o, <[f := v]> o) l (heap st)) st)) →
  ∀ fuel depName st r st', get fuel depName st = (r, st') → R st st'.
Proof.
  intros Hrefl Htrans Hreg Hc Hr Hn Hs.
  induction fuel as [|fuel IH]; intros depName st r st'; simpl.
  - intros [= <- <-]. apply Hrefl.
  - by apply get_body_step.
Qed.

(** *** What resolution adds *)

Section Grown.

Lemma grown_same st st' :
  container st' = container st →
  user_registrations st' = user_registrations st → grown st st'.
Proof.
  intros Hc Hr. split; [by rewrite Hc|]. exists []. split.
  - by rewrite Hr, app_nil_r.
  - intros n Hn. rewrite Hc, Hn. split; [by intros [? ?]|].
    by intros ?%elem_of_nil.
Qed.

Lemma grown_refl st : grown st st.
Proof. by apply grown_same. Qed.

Lemma grown_trans st1 st2 st3 : grown st1 st2 → grown st2 st3 → grown st1 st3.
Proof.
  intros (Hk12 & names1 & Hr12 & Hn12) (Hk23 & names2 & Hr23 & Hn23).
  split; [intros n Hn; by apply Hk23, Hk12|].
  exists (names1 ++ names2)%list. split.
  - by rewrite Hr23, Hr12, <- app_assoc.
  - intros n Hn. rewrite elem_of_app. split.
    + intros Hin3. destruct (container st2 !! n) as [d|] eqn:Hd2.
      * left. apply Hn12; [done|by eexists].
      * right. by apply Hn23.
    + intros [Hin|Hin].
      * apply Hk23. by apply Hn12.
      * destruct (container st2 !! n) as [d|] eqn:Hd2.
        -- apply Hk23. by eexists.
        -- by apply Hn23.
Qed.

Lemma grown_register name d st r st' :
  by_user_code name (_setDependency name d) st = (r, st') → grown st st'.
Proof.
  unfold by_user_code.
  destruct (_setDependency name d st) as [[[]| |] st1] eqn:Hset;
    apply setDependency_inv in Hset as [(Hr & -> & _)|(Hr & -> & Hn & _)];
    try done; intros [= <- <-]; try apply grown_refl.
  split.
  - intros n Hin. simpl. rewrite lookup_insert_is_Some.
    destruct (decide (name = n)); [by left|by right].
  - exists [name]. split; [done|]. intros n Hnone. simpl.
    rewrite lookup_insert_is_Some, list_elem_of_singleton. split.
    + intros [<-|[_ [d0 Hd0]]]; [done|congruence].
    + intros ->. by left.
Qed.

Lemma grown_cache depName inst st :
  grown st (with_container (alter (set_instance inst) depName (container st)) st).
Proof.
  assert (∀ n, is_Some (alter (set_instance inst) depName (container st) !! n)
               ↔ is_Some (container st !! n)) as Halter.
  { intros n. destruct (decide (depName = n)) as [<-|Hne].
    - rewrite lookup_alter_eq. by rewrite fmap_is_Some.
    - by rewrite lookup_alter_ne. }
  split; [intros n Hn; simpl; by apply Halter|].
  exists []. split; [simpl; by rewrite app_nil_r|].
  intros n Hn. simpl. rewrite Halter, Hn. split; [by intros [? ?]|].
  by intros ?%elem_of_nil.
Qed.

(** Whatever the outcome of [get], the entries stay and the new ones are
    those that user code registered during the call. *)
Lemma get_grown fuel depName st r st' :
  get fuel depName st = (r, st') → grown st st'.
Proof.
  apply (get_step grown);
    eauto using grown_refl, grown_trans, grown_register, grown_cache.
  - intros names s. by apply grown_same.
  - intros s. by apply grown_same.
  - intros l f v s. by apply grown_same.
Qed.

End Grown.

(** *** The README container is what the registration operations build *)

Section Readme.

Lemma readme_container_built :
  let st1 := snd (addFile (Exports (exports Ball)) None empty_container) in
  let st2 := snd (addFile (Exports (exports Dog)) None st1) in
  let st3 := snd (addConstant "CarName" (VStr "Bobby Big Wheels") st2) in
  let st4 := snd (addFactory "Car" car_factory st3) in
  snd (addFunction "Add12" (VFun 12) st4) = readme_container.
Proof. vm_compute. reflexivity. Qed.

End Readme.

(** *** Singletons *)

Section Singletons.

(** C1, at a class whose constructor declares no parameter: the pattern of
    [getFunctionArgs] finds no parameter list, the definition is
    registered with [args] null, and [get] then takes the branch that
    constructs without caching: two calls return two different objects
    and the definition still has no instance. *)
Theorem singleton_without_parameters_not_cached :
  Util.getFunctionArgs (toString Ball) = None ∧
  container readme_container !! "Ball"
    = Some (class_definition None (exports Ball) true) ∧
  ∃ st1 st2,
    get 1 "Ball" readme_container = (Ok (VObj 0), st1) ∧
    get 1 "Ball" st1 = (Ok (VObj 1), st2) ∧
    VObj 0 ≠ VObj 1 ∧
    container st2 !! "Ball" = container readme_container !! "Ball".
Proof.
  split; [by vm_compute|]. split; [by vm_compute|].
  eexists _, _. split; [vm_compute; reflexivity|].
  split; [vm_compute; reflexivity|]. split; [done|]. by vm_compute.
Qed.

(** The same for every singleton class definition registered with [args]
    null: each call constructs anew, as if nothing had been resolved
    before. *)
Lemma singleton_without_parameters_constructed fuel depName st requiredFile :
  container st !! depName = Some (class_definition None requiredFile true) →
  starts_with_nodeModulePrefix depName st = false →
  get (S fuel) depName st = new (get fuel) (Some requiredFile) [] st.
Proof.
  intros Hd Hprefix. simpl. unfold get_body, has. by rewrite Hprefix, Hd.
Qed.

(** A singleton class definition with a parameter list is cached as the
    README says: a call that returns leaves the instance it returned in
    the entry. *)
Lemma singleton_cached_after fuel depName st names requiredFile v st' :
  registered st depName (class_definition (Some names) requiredFile true) →
  starts_with_nodeModulePrefix depName st = false →
  get (S fuel) depName st = (Ok v, st') →
  starts_with_nodeModulePrefix depName st' = false ∧
  ∃ d', container st' !! depName = Some d' ∧
        cached d' = true ∧ instance d' = Some v.
Proof.
  intros (d & Hd & Hsame) Hprefix Hget.
  pose proof (get_kept false _ _ _ _ _ ltac:(done) Hget) as [(Hcfg & _ & Hk) _].
  destruct (Hk _ _ Hd) as (d' & Hd' & Hs' & Hc' & _).
  split; [unfold starts_with_nodeModulePrefix in *; by rewrite Hcfg|].
  exists d'. split; [done|].
  apply same_definition_fields in Hsame
    as (Ha & Hfile & _ & Hsing & _ & Hc & _ & Hf & _ & Hfac).
  simpl in *. revert Hget. unfold get_body, has. rewrite Hprefix, Hd. simpl.
  destruct (cached d) eqn:Hcd.
  - intros [= <- <-]. rewrite (Hc' eq_refl) in *. split; [done|].
    unfold cached in Hcd. destruct (instance d); [done|].
    by rewrite andb_false_r in Hcd.
  - rewrite <- Hf, <- Hc, <- Hfac, <- Ha, <- Hsing. unfold bind.
    destruct (get_args _ _ _) as [[vs| |] st1]; [|done..].
    destruct (new _ _ _ _) as [[inst| |] st2] eqn:Hnew; [|done..].
    unfold cache_instance, ret. intros [= <- <-]. simpl in Hd'.
    destruct (container st2 !! depName) as [d2|] eqn:Hd2.
    + rewrite lookup_alter_eq, Hd2 in Hd'. injection Hd' as <-.
      split; [|done]. unfold cached. simpl.
      apply same_definition_fields in Hs' as (_ & _ & _ & Hsing' & _).
      simpl in Hsing'. rewrite <- Hsing', <- Hsing.
      by rewrite (is_object_truthy _ (new_is_object _ _ _ _ _ _ Hnew)).
    + by rewrite lookup_alter_eq, Hd2 in Hd'.
Qed.

Lemma get_cached fuel depName st d v :
  starts_with_nodeModulePrefix depName st = false →
  container st !! depName = Some d → cached d = true → instance d = Some v →
  get (S fuel) depName st = (Ok v, st).
Proof.
  intros Hprefix Hd Hcached Hinst. simpl. unfold get_body, has.
  by rewrite Hprefix, Hd, Hcached, Hinst.
Qed.

Lemma singleton_with_parameters_cached fuel fuel' depName st names
    requiredFile v st' :
  registered st depName (class_definition (Some names) requiredFile true) →
  starts_with_nodeModulePrefix depName st = false →
  get (S fuel) depName st = (Ok v, st') →
  get (S fuel') depName st' = (Ok v, st').
Proof.
  intros Hreg Hprefix Hget.
  destruct (singleton_cached_after _ _ _ _ _ _ _ Hreg Hprefix Hget)
    as (Hprefix' & d' & Hd' & Hcached & Hinst).
  by eapply get_cached.
Qed.

End Singletons.

(** *** The external-module prefix *)

Section NodeModulePrefix.

(** C2, at the name [$bcrypt] with [$] configured as the prefix of
    external modules and [bcrypt] installed.  Under the key the README
    documents ([npmPrefix]) the prefix is not consulted at all; under the
    key the code reads ([nodeModulePrefix]) the name is routed to the
    external modules, but in both cases it is handed over with the prefix
    still on it, so that [$bcrypt] is asked for three times and the call
    throws. *)
Theorem prefix_not_stripped :
  get 1 "$bcrypt" npm_prefix_container =
    (Err (CouldNotFindNpmModule "$bcrypt"),
     with_resolved ["$bcrypt"; "$bcrypt"; "$bcrypt"] npm_prefix_container) ∧
  starts_with_nodeModulePrefix "$bcrypt" npm_prefix_container = false ∧
  get 1 "$bcrypt" node_module_prefix_container =
    (Err (CouldNotFindNpmModule "$bcrypt"),
     with_resolved ["$bcrypt"; "$bcrypt"; "$bcrypt"]
       node_module_prefix_container) ∧
  starts_with_nodeModulePrefix "$bcrypt" node_module_prefix_container = true ∧
  fst (get 1 "bcrypt" node_module_prefix_container) = Ok (VModule "bcrypt").
Proof. repeat split; vm_compute; reflexivity. Qed.

End NodeModulePrefix.

(** *** Factories *)

Section Factories.

Lemma get_factory fuel depName st f :
  registered st depName (factory_definition f) →
  starts_with_nodeModulePrefix depName st = false →
  get (S fuel) depName st = run (get fuel) (f VThis) st.
Proof.
  intros (d & Hd & Hsame) Hprefix.
  apply same_definition_fields in Hsame
    as (_ & _ & _ & Hsing & _ & Hc & _ & Hf & Hfac & Hisfac).
  simpl in *. unfold get_body, has, cached.
  by rewrite Hprefix, Hd, <- Hsing, <- Hf, <- Hc, <- Hisfac, <- Hfac.
Qed.

Lemma factory_entry_unchanged fuel depName name st d f :
  container st !! name = Some d →
  same_definition (factory_definition f) d →
  container (snd (get fuel depName st)) !! name = Some d.
Proof.
  intros Hd Hsame. destruct (get fuel depName st) as [r st'] eqn:Hget.
  pose proof (get_kept false _ _ _ _ _ ltac:(done) Hget) as [(_ & _ & Hk) _].
  destruct (Hk _ _ Hd) as (d' & Hd' & Hs' & _ & Hi'). simpl. rewrite Hd'.
  f_equal. symmetry. apply same_definition_eq; [done|].
  destruct (decide (instance d' = instance d)) as [|Hne]; [done|].
  destruct (Hi' Hne) as (_ & (_ & _ & _ & Hfac & _) & _).
  apply same_definition_fields in Hsame as (_ & _ & _ & _ & _ & _ & _ & _ & _ & Hisfac).
  simpl in Hisfac. congruence.
Qed.

(** C6, for names that are not routed to the external modules: [get] on
    a name registered as a factory definition calls the registered factory
    with the container as its only argument and returns what the factory
    returns; nothing is cached, the entry is after the call what it was
    before, so every later call calls the factory again, and a factory
    that makes a new object per call yields a different object per
    [get]. *)
Theorem get_factory_calls_factory (fuel : nat) (depName : string)
    (st : state) (f : value → prog) :
  registered st depName (factory_definition f) →
  starts_with_nodeModulePrefix depName st = false →
  get (S fuel) depName st = run (get fuel) (f VThis) st ∧
  container (snd (get (S fuel) depName st)) !! depName
    = container st !! depName ∧
  (f = fresh_object_factory →
   ∃ st1 st2,
     get (S fuel) depName st = (Ok (VObj (next_loc st)), st1) ∧
     get (S fuel) depName st1 = (Ok (VObj (S (next_loc st))), st2) ∧
     VObj (next_loc st) ≠ VObj (S (next_loc st))).
Proof.
  intros Hreg Hprefix. split; [by apply get_factory|]. split.
  - destruct Hreg as (d & Hd & Hsame). rewrite Hd.
    by eapply factory_entry_unchanged.
  - intros ->. rewrite (get_factory _ _ _ _ Hreg Hprefix).
    set (st1 := with_heap (S (next_loc st)) (<[next_loc st := ∅]> (heap st)) st).
    exists st1, (with_heap (S (next_loc st1)) (<[next_loc st1 := ∅]> (heap st1)) st1).
    split; [reflexivity|]. split; [|intros [= H]; lia].
    destruct Hreg as (d & Hd & Hsame).
    rewrite (get_factory fuel depName st1 fresh_object_factory); [done| |done].
    by exists d.
Qed.

(** The witness: the README's container does not configure the prefix, and
    has a factory under [Car]. *)
Lemma get_factory_calls_factory_witness :
  get 2 "Car" readme_container = run (get 1) (car_factory VThis) readme_container.
Proof.
  apply (get_factory_calls_factory 1 "Car" readme_container car_factory).
  - exists (factory_definition car_factory). split; [by vm_compute|reflexivity].
  - by vm_compute.
Defined.

(** C6 as stated fails for a factory registered under a name that starts
    with the configured external-module prefix: [get] does not call the
    factory, which would return 1, but looks for an installed module and
    throws. *)
Lemma get_prefixed_factory_not_called :
  container prefixed_factory_container !! "$F"
    = Some (factory_definition one_factory) ∧
  fst (run (get 1) (one_factory VThis) prefixed_factory_container)
    = Ok (VNum 1) ∧
  fst (get 2 "$F" prefixed_factory_container)
    = Err (CouldNotFindNpmModule "$F").
Proof. repeat split; vm_compute; reflexivity. Qed.

End Factories.

(** *** Resolution and the registry *)

Section Registry.

Lemma getClass_state depName st : snd (getClass depName st) = st.
Proof.
  unfold getClass. destruct (negb (has depName st)); [done|].
  destruct (container st !! depName) as [d|]; [|done].
  by destruct (isFunction d), (isConstant d).
Qed.

(** C9, as far as it holds: [getClass] changes nothing, and whatever the
    outcome of [get], every entry of the container is still there with the
    same kind, registered value and parameter list.  Between the start and
    the end of a call the only change to an entry is that a singleton
    class definition with a parameter list, which had no instance cached
    when the call started, has got an object as its instance; an entry that
    has an instance cached when the call starts is the same when it ends.
    The names a call adds are exactly those that user code, the factories
    and constructors it ran, registered with success while it ran: when
    that code registered nothing, no entry is added, and so it is when no
    factory or constructor of the container calls a registration
    operation at all. *)
Theorem get_keeps_definitions (fuel : nat) (depName : string) (st : state) :
  let st' := snd (get fuel depName st) in
  snd (getClass depName st) = st ∧
  entries_kept st st' ∧
  (∃ names, added_by_user_code st st' names) ∧
  (user_registrations st' = user_registrations st → nothing_added st st') ∧
  (quiet st → nothing_added st st').
Proof.
  cbv zeta. split; [apply getClass_state|].
  destruct (get fuel depName st) as [r st'] eqn:Hget. simpl.
  pose proof (get_grown _ _ _ _ _ Hget) as (_ & names & Hlog & Hnames).
  split; [|split; [|split]].
  - by destruct (get_kept false _ _ _ _ _ ltac:(done) Hget).
  - by exists names.
  - intros Hsame n Hn. rewrite Hsame in Hlog.
    assert (names = []) as ->.
    { apply (app_inv_head (user_registrations st)). by rewrite app_nil_r. }
    destruct (container st' !! n) as [d|] eqn:Hd; [|done].
    assert (n ∈ @nil string) as Hin by (apply Hnames; [done|by eexists]).
    by apply elem_of_nil in Hin.
  - intros Hq. destruct (get_kept true _ _ _ _ _ ltac:(done) Hget) as [_ Hadd].
    by apply Hadd.
Qed.

(** C9 as stated fails when user code registers: a call of [get] on a
    factory that calls [addConstant] adds an entry. *)
Lemma get_registering_factory_adds_entry :
  container registering_container !! "X" = None ∧
  container (snd (get 1 "F" registering_container)) !! "X"
    = Some (constant_definition (VNum 1)) ∧
  user_registrations (snd (get 1 "F" registering_container)) = ["X"].
Proof. repeat split; vm_compute; reflexivity. Qed.

(** Within one call an instance may be cached and replaced: the
    constructor of [Narcissus] re-enters [get] on its own class, the inner
    call constructs and caches a second object, and the outer call then
    caches and returns the first. *)
Lemma get_reentrant_constructor_overwrites :
  let st' := snd (get 3 "Narcissus" narcissus_container) in
  cached <$> container narcissus_container !! "Narcissus" = Some false ∧
  fst (get 3 "Narcissus" narcissus_container) = Ok (VObj 0) ∧
  instance <$> container st' !! "Narcissus" = Some (Some (VObj 0)) ∧
  next_loc narcissus_container = 0 ∧ next_loc st' = 2.
Proof. repeat split; vm_compute; reflexivity. Qed.

End Registry.

(** *** Termination *)

Section Deeper.

(** A deeper [get] agrees with a shallower one wherever that finished. *)
Variables this_get this_get' : string → M value.

Hypothesis this_get_deeper :
  ∀ n st r st',
    this_get n st = (r, st') → r ≠ OutOfFuel → this_get' n st = (r, st').

Lemma run_deeper p :
  ∀ st r st',
    run this_get p st = (r, st') → r ≠ OutOfFuel →
    run this_get' p st = (r, st').
Proof.
  induction p as [v|msg| |m k IH|n c k IH|n f k IH|n f IHf k IH|k IH|l fld v k IH];
    intros st r st'; simpl; try done.
  - unfold bind. destruct (this_get m st) as [[v| |] st1] eqn:Hg.
    + rewrite (this_get_deeper _ _ _ _ Hg); [|done]. apply IH.
    + rewrite (this_get_deeper _ _ _ _ Hg); done.
    + by intros [= <- <-].
  - unfold bind.
    destruct (by_user_code n (addConstant n c) st) as [[[]| |] st1];
      [apply IH|done..].
  - unfold bind.
    destruct (by_user_code n (addFunction n f) st) as [[[]| |] st1];
      [apply IH|done..].
  - unfold bind.
    destruct (by_user_code n (addFactory n f) st) as [[[]| |] st1];
      [apply IH|done..].
  - apply IH.
  - apply IH.
Qed.

Lemma get_args_deeper names :
  ∀ st r st',
    get_args this_get names st = (r, st') → r ≠ OutOfFuel →
    get_args this_get' names st = (r, st').
Proof.
  induction names as [|arg rest IH]; intros st r st'; simpl; [done|].
  unfold bind. destruct (this_get arg st) as [[v| |] st1] eqn:Hg.
  - rewrite (this_get_deeper _ _ _ _ Hg); [|done].
    destruct (get_args this_get rest st1) as [[vs| |] st2] eqn:Hrest.
    + rewrite (IH _ _ _ Hrest); done.
    + rewrite (IH _ _ _ Hrest); done.
    + by intros [= <- <-].
  - rewrite (this_get_deeper _ _ _ _ Hg); done.
  - by intros [= <- <-].
Qed.

Lemma new_deeper file values st r st' :
  new this_get file values st = (r, st') → r ≠ OutOfFuel →
  new this_get' file values st = (r, st').
Proof.
  unfold new. destruct file as [requiredFile|]; [|done].
  destruct (Required.prototype requiredFile) as [c|]; [|done].
  unfold bind. destruct (run this_get _ _) as [[v| |] st1] eqn:Hrun.
  - by rewrite (run_deeper _ _ _ _ Hrun).
  - by rewrite (run_deeper _ _ _ _ Hrun).
  - by intros [= <- <-].
Qed.

Lemma get_body_deeper depName st r st' :
  get_body this_get depName st = (r, st') → r ≠ OutOfFuel →
  get_body this_get' depName st = (r, st').
Proof.
  unfold get_body.
  destruct (starts_with_nodeModulePrefix depName st || negb (has depName st));
    [done|].
  destruct (container st !! depName) as [d|]; [|done].
  destruct (cached d); [done|]. destruct (isFunction d); [done|].
  destruct (isConstant d); [done|].
  destruct (isFactory d).
  { destruct (factory d) as [f|]; [apply run_deeper|done]. }
  destruct (args d) as [names|]; [|apply new_deeper].
  unfold bind.
  destruct (get_args this_get names st) as [[values| |] st1] eqn:Hga.
  - rewrite (get_args_deeper _ _ _ _ Hga); [|done].
    destruct (new this_get (file d) values st1) as [[inst| |] st2] eqn:Hnew.
    + by rewrite (new_deeper _ _ _ _ _ Hnew).
    + by rewrite (new_deeper _ _ _ _ _ Hnew).
    + by intros [= <- <-].
  - by rewrite (get_args_deeper _ _ _ _ Hga).
  - by intros [= <- <-].
Qed.

End Deeper.

Lemma get_deeper (fuel : nat) :
  ∀ (fuel' : nat) depName st r st',
    (fuel ≤ fuel')%nat → get fuel depName st = (r, st') → r ≠ OutOfFuel →
    get fuel' depName st = (r, st').
Proof.
  induction fuel as [|fuel IH]; intros fuel' depName st r st' Hle; simpl.
  - by intros [= <- <-].
  - destruct fuel' as [|fuel']; [lia|]. simpl.
    apply get_body_deeper. intros n s r0 s'. apply IH. lia.
Qed.

Section Finishes.

Variable st0 : state.
Hypothesis st0_quiet : quiet st0.
Hypothesis st0_halting : halting st0.

Lemma getNodeModule_finishes depName st :
  fst (_getNodeModule depName st) ≠ OutOfFuel.
Proof.
  unfold _getNodeModule, bind, nodeModuleExists, require, throw. simpl.
  repeat (destruct (bool_decide _); simpl;
          [match goal with
           | |- context [node_modules ?s !! ?n] =>
               by destruct (node_modules s !! n)
           end|]).
  done.
Qed.

Lemma run_finishes p :
  (∀ m, requests p m → finishes_everywhere st0 m) →
  registers_nothing p → halts p →
  ∀ st, kept true st0 st →
        ∃ fuel r st', run (get fuel) p st = (r, st') ∧ r ≠ OutOfFuel.
Proof.
  induction p as [v|msg| |m k IH|n c k IH|n f k IH|n f IHf k IH|k IH|l fld v k IH];
    intros Hreq Hp Hh st Hk; simpl in Hp, Hh; try done.
  - by exists 0, (Ok v), st.
  - by exists 0, (Err (UserError msg)), st.
  - destruct (Hreq m (requests_get m k) st Hk) as (f1 & r1 & st1 & Hg & Hr1).
    destruct r1 as [v|e|]; [| |done].
    + assert (kept true st0 st1) as Hk1.
      { eapply kept_trans; [exact Hk|].
        eapply get_kept; [|exact Hg]. intros _. by eapply quiet_kept. }
      destruct (IH v (λ m' H, Hreq m' (requests_after_get m k v m' H)) (Hp v)
                  (Hh v) st1 Hk1)
        as (f2 & r2 & st2 & Hrun & Hr2).
      exists (f1 `max` f2), r2, st2. split; [|done]. simpl. unfold bind.
      rewrite (get_deeper f1 (f1 `max` f2) _ _ _ _ ltac:(lia) Hg); [|done].
      eapply run_deeper; [|exact Hrun|done].
      intros n0 s r0 s'. apply get_deeper. lia.
    + exists f1, (Err e), st1. split; [|done]. simpl. unfold bind. by rewrite Hg.
  - eapply IH; [|apply Hp|apply Hh|].
    + intros m H. apply Hreq. by eapply requests_after_new.
    + eapply kept_trans; [exact Hk|]. apply kept_with_heap.
  - eapply IH; [|apply Hp|apply Hh|].
    + intros m H. apply Hreq. by eapply requests_after_set.
    + eapply kept_trans; [exact Hk|]. apply kept_with_heap.
Qed.

Lemma get_args_finishes names :
  (∀ m, m ∈ names → finishes_everywhere st0 m) →
  ∀ st, kept true st0 st →
        ∃ fuel r st', get_args (get fuel) names st = (r, st') ∧ r ≠ OutOfFuel.
Proof.
  induction names as [|arg rest IH]; intros Hreq st Hk.
  - by exists 0, (Ok []), st.
  - destruct (Hreq arg ltac:(by left) st Hk) as (f1 & r1 & st1 & Hg & Hr1).
    destruct r1 as [v|e|]; [| |done].
    + assert (kept true st0 st1) as Hk1.
      { eapply kept_trans; [exact Hk|].
        eapply get_kept; [|exact Hg]. intros _. by eapply quiet_kept. }
      destruct (IH (λ m H, Hreq m ltac:(by right)) st1 Hk1)
        as (f2 & r2 & st2 & Hrest & Hr2).
      assert (get_args (get (f1 `max` f2)) rest st1 = (r2, st2)) as Hrest'.
      { eapply get_args_deeper; [|exact Hrest|done].
        intros n0 s r0 s'. apply get_deeper. lia. }
      exists (f1 `max` f2). simpl. unfold bind.
      rewrite (get_deeper f1 (f1 `max` f2) _ _ _ _ ltac:(lia) Hg); [|done].
      rewrite Hrest'. destruct r2 as [vs|e|]; [| |done]; by eexists _, _.
    + exists f1, (Err e), st1. split; [|done]. simpl. unfold bind. by rewrite Hg.
Qed.

Lemma new_finishes file values :
  (∀ requiredFile c l m,
     file = Some requiredFile → Required.prototype requiredFile = Some c →
     requests (construct c l values) m → finishes_everywhere st0 m) →
  (∀ requiredFile c l,
     file = Some requiredFile → Required.prototype requiredFile = Some c →
     registers_nothing (construct c l values) ∧ halts (construct c l values)) →
  ∀ st, kept true st0 st →
        ∃ fuel r st', new (get fuel) file values st = (r, st') ∧ r ≠ OutOfFuel.
Proof.
  intros Hreq Hp st Hk. unfold new.
  destruct file as [requiredFile|]; [|by exists 0, (Err TypeError), st].
  destruct (Required.prototype requiredFile) as [c|] eqn:Hc;
    [|by exists 0, (Err TypeError), st].
  destruct (run_finishes (construct c (next_loc st) values)
              (λ m H, Hreq _ _ _ m eq_refl Hc H)
              (proj1 (Hp _ _ _ eq_refl Hc)) (proj2 (Hp _ _ _ eq_refl Hc))
              (with_heap (S (next_loc st)) (<[next_loc st := ∅]> (heap st)) st))
    as (fuel & r & st' & Hrun & Hr).
  { eapply kept_trans; [exact Hk|]. apply kept_with_heap. }
  exists fuel. unfold bind. rewrite Hrun.
  destruct r as [v|e|]; [| |done]; by eexists _, _.
Qed.

Lemma get_finishes_step n :
  (∀ m, depends_on st0 n m → finishes_everywhere st0 m) → finishes_everywhere st0 n.
Proof.
  intros Hdeps st Hk. unfold finishes.
  destruct (starts_with_nodeModulePrefix n st || negb (has n st)) eqn:Hft.
  { exists 1. destruct (_getNodeModule n st) as [r st'] eqn:Hnode.
    exists r, st'. split.
    - simpl. unfold get_body. by rewrite Hft.
    - pose proof (getNodeModule_finishes n st) as H. by rewrite Hnode in H. }
  destruct (container st !! n) as [d|] eqn:Hd.
  2: { exists 1, (Err TypeError), st. split; [|done].
       simpl. unfold get_body. by rewrite Hft, Hd. }
  destruct (kept_lookup_back _ _ _ _ Hk Hd) as (d0 & Hd0 & Hsame & _).
  assert (quiet st) as Hq by (by eapply quiet_kept).
  assert (halting st) as Hh by (by eapply halting_kept).
  assert (∀ p m, user_code d p → requests p m → finishes_everywhere st0 m) as Hcode.
  { intros p m Hp Hr. apply Hdeps. exists d0. split; [done|]. right. exists p.
    split; [|done]. eapply user_code_same_definition; [|exact Hp].
    unfold same_definition in *. congruence. }
  destruct (cached d) eqn:Hcached.
  { exists 1, (Ok (default VUndefined (instance d))), st. split; [|done].
    simpl. unfold get_body. by rewrite Hft, Hd, Hcached. }
  destruct (isFunction d) eqn:Hfun.
  { exists 1, (Ok (default VUndefined (function d))), st. split; [|done].
    simpl. unfold get_body. by rewrite Hft, Hd, Hcached, Hfun. }
  destruct (isConstant d) eqn:Hconst.
  { exists 1, (Ok (default VUndefined (constant d))), st. split; [|done].
    simpl. unfold get_body. by rewrite Hft, Hd, Hcached, Hfun, Hconst. }
  destruct (isFactory d) eqn:Hfac.
  { destruct (factory d) as [f|] eqn:Hf.
    - destruct (run_finishes (f VThis)) with (st := st)
        as (fuel & r & st' & Hrun & Hr); [| | |done|].
      + intros m Hm. eapply Hcode; [|exact Hm]. left. eauto.
      + apply (Hq n d); [done|]. left. eauto.
      + apply (Hh n d); [done|]. left. eauto.
      + exists (S fuel), r, st'. split; [|done]. simpl. unfold get_body.
        by rewrite Hft, Hd, Hcached, Hfun, Hconst, Hfac, Hf.
    - exists 1, (Err TypeError), st. split; [|done]. simpl. unfold get_body.
      by rewrite Hft, Hd, Hcached, Hfun, Hconst, Hfac, Hf. }
  assert (∀ values st1, kept true st0 st1 →
            ∃ fuel r st', new (get fuel) (file d) values st1 = (r, st')
                          ∧ r ≠ OutOfFuel) as Hnew.
  { intros values st1 Hk1. apply new_finishes; [| |done].
    - intros requiredFile c l m HF Hc Hm. eapply Hcode; [|exact Hm].
      right. by exists requiredFile, c, l, values.
    - intros requiredFile c l HF Hc.
      split; [apply (Hq n d)|apply (Hh n d)]; try done;
        right; by exists requiredFile, c, l, values. }
  destruct (args d) as [names|] eqn:Hargs.
  - destruct (get_args_finishes names) with (st := st)
      as (f1 & r1 & st1 & Hga & Hr1); [|done|].
    { intros m Hm. apply Hdeps. exists d0. split; [done|]. left. exists names.
      split; [|done]. apply same_definition_fields in Hsame as (-> & _). done. }
    destruct r1 as [values|e|]; [| |done].
    + assert (kept true st0 st1) as Hk1.
      { eapply kept_trans; [exact Hk|].
        eapply get_args_kept; [|done|exact Hga].
        intros m s r s'. apply get_kept. }
      destruct (Hnew values st1 Hk1) as (f2 & r2 & st2 & Hn & Hr2).
      exists (S (f1 `max` f2)). simpl. unfold get_body.
      rewrite Hft, Hd, Hcached, Hfun, Hconst, Hfac, Hargs. unfold bind.
      rewrite (get_args_deeper (get f1) (get (f1 `max` f2))
                 ltac:(intros ? ? ? ?; apply get_deeper; lia) _ _ _ _ Hga);
        [|done].
      rewrite (new_deeper (get f2) (get (f1 `max` f2))
                 ltac:(intros ? ? ? ?; apply get_deeper; lia) _ _ _ _ _ Hn);
        [|done].
      destruct r2 as [inst|e|]; [| |done]; [|by eexists _, _].
      destruct (isSingleton d); by eexists _, _.
    + exists (S f1), (Err e), st1. split; [|done]. simpl. unfold get_body.
      rewrite Hft, Hd, Hcached, Hfun, Hconst, Hfac, Hargs. unfold bind.
      by rewrite Hga.
  - destruct (Hnew [] st Hk) as (fuel & r & st' & Hn & Hr).
    exists (S fuel), r, st'. split; [|done]. simpl. unfold get_body.
    by rewrite Hft, Hd, Hcached, Hfun, Hconst, Hfac, Hargs.
Qed.

Lemma get_finishes_well_founded :
  well_founded (λ m n, depends_on st0 n m) → ∀ n, finishes n st0.
Proof.
  intros Hwf n. cut (finishes_everywhere st0 n); [intros H; apply H, kept_refl|].
  induction (Hwf n) as [n _ IH]. apply get_finishes_step. exact IH.
Qed.

End Finishes.

Section Acyclic.

Lemma ranked_acyclic (R : string → string → Prop) (rank : string → nat) :
  (∀ n m, R n m → (rank m < rank n)%nat) → acyclic R.
Proof.
  intros Hrank n Hn.
  assert (∀ a b, tc R a b → (rank b < rank a)%nat) as Htc.
  { intros a b H. induction H as [a b H|a b c H _ IH].
    - by apply Hrank.
    - pose proof (Hrank _ _ H). lia. }
  pose proof (Htc n n Hn). lia.
Qed.

(** Only registered names depend on anything, and they are finitely many:
    without a cycle, every chain of dependencies ends. *)
Lemma acyclic_visited st (k : nat) :
  acyclic (depends_on st) →
  ∀ (visited : gset string) n,
    (size (dom (container st) ∖ visited) ≤ k)%nat →
    (∀ v, v ∈ visited → tc (depends_on st) v n) →
    Acc (λ m n, depends_on st n m) n.
Proof.
  intros Hacyclic. induction k as [|k IH]; intros visited n Hsize Hvisited;
    constructor; intros m Hnm;
    (assert (n ∈ dom (container st)) as Hdom
       by (destruct Hnm as (d & Hd & _); apply elem_of_dom; eauto));
    (assert (n ∉ visited) as Hnew
       by (intros Hv; apply (Hacyclic n); by apply Hvisited)).
  - assert (size (dom (container st) ∖ visited) = 0)%nat as Hempty by lia.
    apply size_empty_inv in Hempty. destruct (Hempty n) as [Hnone _].
    assert (n ∈ dom (container st) ∖ visited) as Hin
      by (by apply elem_of_difference).
    apply Hnone in Hin. by apply not_elem_of_empty in Hin.
  - apply (IH (visited ∪ {[n]})).
    + assert (dom (container st) ∖ (visited ∪ {[n]})
                ⊂ dom (container st) ∖ visited) as Hsub.
      { split.
        - intros x Hx. apply elem_of_difference in Hx as [Hx Hnx].
          apply elem_of_difference. split; [done|].
          intros Hv. apply Hnx. apply elem_of_union. by left.
        - intros Hsub. assert (n ∈ dom (container st) ∖ visited) as Hin
            by (by apply elem_of_difference).
          apply Hsub, elem_of_difference in Hin as [_ Hin]. apply Hin.
          apply elem_of_union. right. by apply elem_of_singleton. }
      apply subset_size in Hsub. lia.
    + intros v Hv. apply elem_of_union in Hv as [Hv|Hv].
      * eapply tc_r; [by apply Hvisited|done].
      * apply elem_of_singleton in Hv as ->. by apply tc_once.
Qed.

Lemma acyclic_well_founded st :
  acyclic (depends_on st) → well_founded (λ m n, depends_on st n m).
Proof.
  intros Hacyclic n.
  apply (acyclic_visited st (size (dom (container st))) Hacyclic ∅ n).
  - apply subseteq_size. intros x Hx. by apply elem_of_difference in Hx as [Hx _].
  - intros v Hv. by apply not_elem_of_empty in Hv.
Qed.

End Acyclic.

Section Termination.

Lemma finishes_terminates depName st :
  finishes depName st → terminates depName st.
Proof.
  intros (fuel & r & st' & Hget & Hr). exists fuel, r, st'. split; [done|].
  intros fuel' Hle. by apply (get_deeper fuel).
Qed.

(** C10, with user code counted in: when every factory and constructor
    of the container comes back by itself (it has no endless loop of its
    own) and calls no registration operation, and the dependency graph
    (from a definition to each declared parameter of its class and to each
    name its factory or constructor may request from the container) has no
    cycle, [get] terminates for every name: from some depth of nested calls
    on it returns one value, or throws one error. *)
Theorem get_terminates_acyclic (st : state) (depName : string) :
  halting st → quiet st → acyclic (depends_on st) → terminates depName st.
Proof.
  intros Hh Hq Hacyclic. apply finishes_terminates.
  apply get_finishes_well_founded; [done|done|]. by apply acyclic_well_founded.
Qed.

Lemma self_container_registered :
  registered self_container "F" (factory_definition self_factory).
Proof. exists (factory_definition self_factory). split; [by vm_compute|reflexivity]. Qed.

Lemma self_factory_out_of_fuel fuel :
  get fuel "F" self_container = (OutOfFuel, self_container).
Proof.
  induction fuel as [|fuel IH]; [done|].
  rewrite (get_factory fuel "F" self_container self_factory);
    [|apply self_container_registered|by vm_compute].
  unfold self_factory. cbn [run]. unfold bind. by rewrite IH.
Qed.

(** A factory with an endless loop of its own: nothing depends on
    anything and nothing is registered by user code, yet [get] does not
    finish. *)
Lemma get_forever_factory_never_terminates :
  quiet forever_container ∧
  acyclic (depends_on forever_container) ∧
  ¬ terminates "F" forever_container.
Proof.
  assert (∀ n d, container forever_container !! n = Some d →
                 d = factory_definition forever_factory) as Hlookup.
  { intros n d.
    change (container forever_container)
      with (<["F" := factory_definition forever_factory]>
              (∅ : gmap string dependency)).
    intros [[_ <-]|[_ Hd]]%lookup_insert_Some; [done|].
    by rewrite lookup_empty in Hd. }
  assert (∀ fuel, fst (get fuel "F" forever_container) = OutOfFuel) as Hout.
  { intros [|fuel]; [done|].
    rewrite (get_factory fuel "F" forever_container forever_factory);
      [done| |by vm_compute].
    exists (factory_definition forever_factory).
    split; [by vm_compute|reflexivity]. }
  split; [|split].
  - intros n d p Hd Hp. rewrite (Hlookup n d Hd) in Hp.
    destruct Hp as [(f & [= <-] & ->)|(F & c & l & vs & [=] & _)]. done.
  - apply (ranked_acyclic _ (λ _, 0)). intros n m (d & Hd & Hdep).
    rewrite (Hlookup n d Hd) in Hdep.
    destruct Hdep as [(names & [=] & _)
                     |(p & [(f & [= <-] & ->)|(F & c & l & vs & [=] & _)] & Hreq)].
    inversion Hreq.
  - intros (fuel & r & st' & Hr & Hget). specialize (Hget fuel ltac:(lia)).
    specialize (Hout fuel). rewrite Hget in Hout. simpl in Hout. congruence.
Qed.

(** C10 as stated fails on a factory that asks the container for its own
    name: no class is registered, so the graph over class definitions has
    no edge at all, yet [get] does not finish at any depth. *)
Lemma get_self_factory_never_terminates :
  acyclic (class_depends_on self_container) ∧
  (∀ fuel, fst (get fuel "F" self_container) = OutOfFuel) ∧
  ¬ terminates "F" self_container.
Proof.
  split; [|split].
  - apply (ranked_acyclic _ (λ _, 0)). intros n m (d & names & Hd & Hclass & _).
    change (container self_container)
      with (<["F" := factory_definition self_factory]> (∅ : gmap string dependency))
      in Hd.
    apply lookup_insert_Some in Hd as [[_ <-]|[_ Hd]]; [done|].
    by rewrite lookup_empty in Hd.
  - intros fuel. by rewrite self_factory_out_of_fuel.
  - intros (fuel & r & st' & Hr & Hget). specialize (Hget fuel ltac:(lia)).
    rewrite self_factory_out_of_fuel in Hget. congruence.
Qed.

End Termination.

(** *** The claims at the README container *)

Section ReadmeFacts.

Lemma readme_lookup n d :
  container readme_container !! n = Some d →
  (n = "Add12" ∧ d = function_definition (VFun 12)) ∨
  (n = "Car" ∧ d = factory_definition car_factory) ∨
  (n = "CarName" ∧ d = constant_definition (VStr "Bobby Big Wheels")) ∨
  (n = "Dog" ∧ d = class_definition (Some ["Ball"; "bcrypt"]) (exports Dog) true) ∨
  (n = "Ball" ∧ d = class_definition None (exports Ball) true).
Proof.
  change (container readme_container) with readme_entries.
  unfold readme_entries. intros H.
  apply lookup_insert_Some in H as [[<- <-]|[_ H]]; [by left|right].
  apply lookup_insert_Some in H as [[<- <-]|[_ H]]; [by left|right].
  apply lookup_insert_Some in H as [[<- <-]|[_ H]]; [by left|right].
  apply lookup_insert_Some in H as [[<- <-]|[_ H]]; [by left|right].
  apply lookup_insert_Some in H as [[<- <-]|[_ H]]; [done|].
  by rewrite lookup_empty in H.
Qed.

Lemma readme_quiet : quiet readme_container.
Proof.
  intros n d p Hd Hp.
  destruct (readme_lookup n d Hd)
    as [[_ ->]|[[_ ->]|[[_ ->]|[[_ ->]|[_ ->]]]]];
    destruct Hp as [(f & Hf & ->)|(F & c & l & vs & HF & Hc & ->)];
    simpl in *; try done.
  - by injection Hf as <-.
  - injection HF as <-. by injection Hc as <-.
  - injection HF as <-. by injection Hc as <-.
Qed.

Lemma readme_halting : halting readme_container.
Proof.
  intros n d p Hd Hp.
  destruct (readme_lookup n d Hd)
    as [[_ ->]|[[_ ->]|[[_ ->]|[[_ ->]|[_ ->]]]]];
    destruct Hp as [(f & Hf & ->)|(F & c & l & vs & HF & Hc & ->)];
    simpl in *; try done.
  - by injection Hf as <-.
  - injection HF as <-. by injection Hc as <-.
  - injection HF as <-. by injection Hc as <-.
Qed.

Lemma readme_acyclic : acyclic (depends_on readme_container).
Proof.
  apply (ranked_acyclic _
           (λ n, if decide (n = "Dog" ∨ n = "Car") then 1 else 0)).
  intros n m (d & Hd & Hdep).
  destruct (readme_lookup n d Hd)
    as [[-> ->]|[[-> ->]|[[-> ->]|[[-> ->]|[-> ->]]]]]; simpl in Hdep.
  - destruct Hdep as [(names & [=] & _)|(p & [(f & [=] & _)|(F & c & l & vs & [=] & _)] & _)].
  - destruct Hdep as [(names & [=] & _)|(p & [(f & [= <-] & ->)|(F & c & l & vs & [=] & _)] & Hreq)].
    inversion Hreq as [| ? ? v ? Hreq1| | | | |]; subst.
    + by vm_compute.
    + inversion Hreq1 as [| | | | |? l ? Hreq2|]; subst.
      inversion Hreq2 as [| | | | | |? ? ? ? ? Hreq3]; subst.
      inversion Hreq3.
  - destruct Hdep as [(names & [=] & _)|(p & [(f & [=] & _)|(F & c & l & vs & [=] & _)] & _)].
  - destruct Hdep as [(names & [= <-] & Hm)
                     |(p & [(f & [=] & _)|(F & c & l & vs & [= <-] & [= <-] & ->)] & Hreq)].
    + apply elem_of_cons in Hm as [->|Hm]; [by vm_compute|].
      apply elem_of_cons in Hm as [->|Hm]; [by vm_compute|].
      by apply elem_of_nil in Hm.
    + inversion Hreq as [| | | | | |? ? ? ? ? Hreq1]; subst.
      inversion Hreq1 as [| | | | | |? ? ? ? ? Hreq2]; subst.
      inversion Hreq2.
  - destruct Hdep as [(names & [=] & _)
                     |(p & [(f & [=] & _)|(F & c & l & vs & [= <-] & [= <-] & ->)] & Hreq)].
    inversion Hreq as [| | | | | |? ? ? ? ? Hreq1]; subst.
    inversion Hreq1.
Qed.



Lemma getClass_factory_undefined_witness :
  getClass "Car" readme_container = (Ok None, readme_container).
Proof.
  apply (getClass_factory_undefined "Car" readme_container car_factory).
  eexists. split; [by vm_compute|reflexivity].
Defined.

Lemma getNodeModule_tries_three_names_witness :
  get 1 "socketIo" socket_container =
    (Ok (VModule "socket.io"),
     with_resolved ["socketIo"; "socket-io"; "socket.io"] socket_container).
Proof.
  destruct (getNodeModule_tries_three_names "socketIo" socket_container)
    as (Hnode & _ & Hget).
  rewrite (Hget 0); [|by vm_compute]. rewrite Hnode. by vm_compute.
Defined.

Lemma get_keeps_definitions_witness :
  nothing_added readme_container (snd (get 2 "Dog" readme_container)) ∧
  nothing_added registering_container (snd (get 2 "X" registering_container)).
Proof.
  destruct (get_keeps_definitions 2 "Dog" readme_container)
    as (_ & _ & _ & _ & Hquiet).
  destruct (get_keeps_definitions 2 "X" registering_container)
    as (_ & _ & _ & Hsame & _).
  split; [apply Hquiet, readme_quiet|apply Hsame; reflexivity].
Defined.

Lemma get_terminates_acyclic_witness : terminates "Dog" readme_container.
Proof.
  apply (get_terminates_acyclic readme_container "Dog");
    [apply readme_halting|apply readme_quiet|apply readme_acyclic].
Defined.

End ReadmeFacts.

(** ** Beyond the claims: the helpers of [util.js] *)

Import Util NameResolver Further.

Section Characters.

Lemma all_chars_app p s t :
  all_chars p (s ++ t) = all_chars p s && all_chars p t.
Proof.
  induction s as [|c s IH]; simpl; [done|]. rewrite IH. by destruct (p c).
Qed.

Lemma all_chars_impl (p q : ascii → bool) s :
  (∀ c, p c = true → q c = true) → all_chars p s = true → all_chars q s = true.
Proof.
  intros Hpq. induction s as [|c s IH]; simpl; [done|].
  intros [Hc Hs]%andb_true_iff. by rewrite (Hpq c Hc), IH.
Qed.

Lemma string_length_app (s t : string) :
  String.length (s ++ t) = (String.length s + String.length t)%nat.
Proof. induction s as [|c s IH]; simpl; [done|]. by rewrite IH. Qed.

Lemma toLowerCase_length s : String.length (toLowerCase s) = String.length s.
Proof. induction s as [|c s IH]; simpl; [done|]. by rewrite IH. Qed.

Lemma lower_char_not_upper c : is_upper (lower_char c) = false.
Proof. destruct c as [[] [] [] [] [] [] [] []]; reflexivity. Qed.

Lemma toLowerCase_not_upper s :
  all_chars (λ c, negb (is_upper c)) (toLowerCase s) = true.
Proof.
  induction s as [|c s IH]; simpl; [done|].
  by rewrite lower_char_not_upper, IH.
Qed.

Lemma not_class_not_upper c :
  is_upper_or_digit c = false → is_upper c = false.
Proof.
  unfold is_upper_or_digit, is_upper. by intros [H _]%orb_false_iff.
Qed.

Lemma span_upper_or_digit_lengths s :
  (String.length (fst (span_upper_or_digit s))
   + String.length (snd (span_upper_or_digit s)))%nat = String.length s.
Proof.
  induction s as [|c s IH]; simpl; [done|].
  destruct (is_upper_or_digit c); simpl; [|done].
  destruct (span_upper_or_digit s); simpl in *. lia.
Qed.

End Characters.

Section KebabCaseMore.

Lemma replace_matches_unchanged (steps : nat) s :
  all_chars (λ c, negb (is_upper_or_digit c)) s = true →
  replace_matches steps s = s.
Proof.
  revert steps. induction s as [|c s IH]; intros steps; simpl.
  - by destruct steps.
  - intros [Hc Hs]%andb_true_iff. destruct steps as [|steps]; [done|].
    apply negb_true_iff in Hc. simpl. rewrite Hc. by rewrite IH.
Qed.

Lemma replace_matches_longer (steps : nat) :
  ∀ s, (String.length s ≤ steps)%nat →
       (String.length s ≤ String.length (replace_matches steps s))%nat ∧
       (all_chars (λ c, negb (is_upper_or_digit c)) s = false →
        (String.length s < String.length (replace_matches steps s))%nat).
Proof.
  induction steps as [|steps IH]; intros [|c s] Hlen;
    cbn [String.length] in Hlen; try (split; [simpl; lia|done]); [lia|].
  cbn [replace_matches all_chars]. destruct (is_upper_or_digit c) eqn:Hc.
  - pose proof (span_upper_or_digit_lengths s) as Hspan.
    destruct (span_upper_or_digit s) as [more rest]. simpl in Hspan.
    destruct (IH rest ltac:(lia)) as [Hrest _].
    rewrite !string_length_app, toLowerCase_length. simpl. lia.
  - destruct (IH s ltac:(lia)) as [Hle Hlt]. simpl. split; [lia|].
    intros Hs. specialize (Hlt Hs). lia.
Qed.

(** X3: [kebabCase] leaves a name as it is exactly when the name has no
    uppercase letter and no digit; any other name gets longer. *)
Theorem kebabCase_unchanged_iff (str : string) :
  (kebabCase str = str ↔
   all_chars (λ c, negb (is_upper_or_digit c)) str = true) ∧
  (String.length str ≤ String.length (kebabCase str))%nat.
Proof.
  destruct (replace_matches_longer (String.length str) str ltac:(lia))
    as [Hle Hlt].
  split; [|exact Hle]. split.
  - intros Heq.
    destruct (all_chars (λ c, negb (is_upper_or_digit c)) str) eqn:Hall;
      [done|].
    specialize (Hlt eq_refl). unfold kebabCase in Heq. rewrite Heq in Hlt. lia.
  - apply replace_matches_unchanged.
Qed.

Lemma replace_matches_not_upper (steps : nat) :
  ∀ s, (String.length s ≤ steps)%nat →
       all_chars (λ c, negb (is_upper c)) (replace_matches steps s) = true.
Proof.
  induction steps as [|steps IH]; intros [|c s] Hlen;
    cbn [String.length] in Hlen; try done; [lia|].
  cbn [replace_matches]. destruct (is_upper_or_digit c) eqn:Hc.
  - pose proof (span_upper_or_digit_lengths s) as Hspan.
    destruct (span_upper_or_digit s) as [more rest]. simpl in Hspan.
    rewrite !all_chars_app, toLowerCase_not_upper, IH; [done|lia].
  - cbn [all_chars]. rewrite (not_class_not_upper _ Hc), IH; [done|lia].
Qed.

Lemma dashes_to_dots_chars (p : ascii → bool) s :
  p "."%char = true → all_chars p s = true →
  all_chars (λ c, p c && negb (is_dash c)) (dashes_to_dots s) = true.
Proof.
  intros Hdot. induction s as [|c s IH]; simpl; [done|].
  intros [Hc Hs]%andb_true_iff. rewrite (IH Hs). unfold is_dash.
  destruct (ascii_dec c "-") as [->|Hne]; simpl.
  - by rewrite Hdot.
  - rewrite Hc. by destruct (ascii_dec c "-").
Qed.

Lemma dashes_to_dots_length s :
  String.length (dashes_to_dots s) = String.length s.
Proof. induction s as [|c s IH]; simpl; [done|]. by rewrite IH. Qed.

(** X4: the two names [_getNodeModule] derives from a name are in lower
    case: the dash-case form has no uppercase letter, and the dotted form
    has no uppercase letter and no dash, and is as long as the dash-case
    form. *)
Theorem derived_names_lower_case (depName : string) :
  let dashName := kebabCase depName in
  let dotName := dashes_to_dots dashName in
  all_chars (λ c, negb (is_upper c)) dashName = true ∧
  all_chars (λ c, negb (is_upper c) && negb (is_dash c)) dotName = true ∧
  String.length dotName = String.length dashName.
Proof.
  cbv zeta.
  assert (all_chars (λ c, negb (is_upper c)) (kebabCase depName) = true) as H
    by (apply replace_matches_not_upper; lia).
  split; [done|]. split; [|apply dashes_to_dots_length].
  by apply (dashes_to_dots_chars (λ c, negb (is_upper c))).
Qed.

End KebabCaseMore.

Section GetFunctionArgs.

(** *** What [trim] and [split] do to the characters *)

Lemma trim_start_chars p s :
  all_chars p s = true → all_chars p (trim_start s) = true.
Proof.
  induction s as [|c s IH]; simpl; [done|].
  intros [Hc Hs]%andb_true_iff. destruct (is_whitespace c); [by apply IH|].
  simpl. by rewrite Hc, Hs.
Qed.

Lemma trim_end_chars p s :
  all_chars p s = true → all_chars p (trim_end s) = true.
Proof.
  induction s as [|c s IH]; simpl; [done|].
  intros [Hc Hs]%andb_true_iff. specialize (IH Hs).
  destruct (trim_end s) as [|d t].
  - destruct (is_whitespace c); simpl; [done|]. by rewrite Hc.
  - simpl in *. by rewrite Hc.
Qed.

Lemma trim_chars p s : all_chars p s = true → all_chars p (trim s) = true.
Proof. intros H. by apply trim_end_chars, trim_start_chars. Qed.

Lemma trim_end_cons c s :
  is_whitespace c = false → trim_end (String c s) = String c (trim_end s).
Proof. intros Hc. simpl. rewrite Hc. by destruct (trim_end s). Qed.

Lemma trim_end_idempotent s : trim_end (trim_end s) = trim_end s.
Proof.
  induction s as [|c s IH]; simpl; [done|].
  destruct (trim_end s) as [|d t] eqn:Ht.
  - destruct (is_whitespace c) eqn:Hc; simpl; [done|]. by rewrite Hc.
  - cbn [trim_end]. cbn [trim_end] in IH. by rewrite IH.
Qed.

Lemma trim_start_head s :
  trim_start s = EmptyString ∨
  ∃ c r, trim_start s = String c r ∧ is_whitespace c = false.
Proof.
  induction s as [|c s IH]; simpl; [by left|].
  destruct (is_whitespace c) eqn:Hc; [done|]. right. by exists c, s.
Qed.

Lemma trim_trimmed s : trimmed (trim s).
Proof.
  unfold trimmed, trim.
  destruct (trim_start_head s) as [->|(c & r & Heq & Hc)]; [done|].
  rewrite Heq, (trim_end_cons _ _ Hc). simpl. rewrite Hc.
  rewrite <- (trim_end_cons _ _ Hc). apply trim_end_idempotent.
Qed.

Lemma trim_plain n : plain_name n → trim n = n.
Proof.
  intros [Hne Hall]. unfold trim.
  assert (all_chars (λ c, negb (is_whitespace c)) n = true) as Hws.
  { eapply all_chars_impl; [|exact Hall]. intros c. unfold name_char.
    destruct (is_whitespace c); [|done]. by rewrite orb_true_r. }
  assert (trim_start n = n) as ->.
  { destruct n as [|c n]; [done|]. simpl in *.
    apply andb_true_iff in Hws as [Hc _]. apply negb_true_iff in Hc.
    by rewrite Hc. }
  clear Hall. induction n as [|c n IH]; [done|].
  simpl in Hws. apply andb_true_iff in Hws as [Hc Hn].
  apply negb_true_iff in Hc. rewrite (trim_end_cons _ _ Hc).
  destruct n as [|d n]; [done|]. by rewrite IH.
Qed.

Lemma split_comma_not_nil s : split_comma s ≠ [].
Proof.
  induction s as [|c s IH]; simpl; [done|].
  destruct (split_comma s); [done|]. by destruct (ascii_dec c ",").
Qed.

Lemma split_comma_chars p s :
  all_chars p s = true → Forall (λ piece, all_chars p piece = true) (split_comma s).
Proof.
  induction s as [|c s IH]; simpl; [by repeat constructor|].
  intros [Hc Hs]%andb_true_iff. specialize (IH Hs).
  destruct (split_comma s) as [|piece pieces]; [by repeat constructor; simpl; rewrite Hc|].
  apply Forall_cons in IH as [Hpiece Hpieces].
  destruct (ascii_dec c ","); repeat constructor; try done.
  simpl. by rewrite Hc.
Qed.

Lemma split_comma_no_comma s :
  Forall (λ piece, all_chars (λ c, negb (is_comma c)) piece = true) (split_comma s).
Proof.
  induction s as [|c s IH]; simpl; [by repeat constructor|].
  destruct (split_comma s) as [|piece pieces] eqn:Hsplit;
    [by apply split_comma_not_nil in Hsplit|].
  apply Forall_cons in IH as [Hpiece Hpieces].
  destruct (ascii_dec c ",") as [->|Hne] eqn:Hdec; repeat constructor; try done.
  simpl. unfold is_comma at 1. by rewrite Hdec.
Qed.

(** *** What the pattern captures *)

Lemma line_of_chars s :
  all_chars (λ c, negb (is_line_terminator c)) (line_of s) = true.
Proof.
  induction s as [|c s IH]; simpl; [done|].
  destruct (is_line_terminator c) eqn:Hc; [done|]. simpl. by rewrite Hc.
Qed.

Lemma before_last_paren_chars p s g :
  all_chars p s = true → before_last_paren s = Some g → all_chars p g = true.
Proof.
  revert g. induction s as [|c s IH]; intros g; simpl; [done|].
  intros [Hc Hs]%andb_true_iff.
  destruct (before_last_paren s) as [g'|].
  - intros [= <-]. simpl. by rewrite Hc, (IH g').
  - destruct (ascii_dec c ")"); [|done]. by intros [= <-].
Qed.

Lemma match_group_chars s g :
  match_group s = Some g →
  g ≠ EmptyString ∧ all_chars (λ c, negb (is_line_terminator c)) g = true.
Proof.
  unfold match_group.
  destruct (before_last_paren (line_of s)) as [[|c g']|] eqn:Hb; [done| |done].
  intros [= <-]. split; [done|].
  eapply before_last_paren_chars; [apply line_of_chars|exact Hb].
Qed.

Lemma match_constructor_chars str g :
  match_constructor str = Some g →
  g ≠ EmptyString ∧ all_chars (λ c, negb (is_line_terminator c)) g = true.
Proof.
  induction str as [|c str IH]; [done|].
  cbn [match_constructor].
  destruct (if starts_with_ci "constructor(" (String c str)
            then match_group (drop 12 (String c str)) else None)
    as [g'|] eqn:Hhere; [|exact IH].
  intros [= <-]. destruct (starts_with_ci _ _); [|done].
  by apply match_group_chars in Hhere.
Qed.

(** X1: the list [getFunctionArgs] returns is never empty, and each name
    in it is trimmed (it neither starts nor ends with white space) and
    contains no comma and no line break. *)
Theorem getFunctionArgs_names (source : string) (names : list string) :
  getFunctionArgs source = Some names →
  names ≠ [] ∧
  Forall (λ n, trimmed n ∧
               all_chars (λ c, negb (is_comma c)) n = true ∧
               all_chars (λ c, negb (is_line_terminator c)) n = true) names.
Proof.
  unfold getFunctionArgs.
  destruct (match_constructor source) as [g|] eqn:Hg; [|done].
  intros [= <-]. apply match_constructor_chars in Hg as [_ Hline]. split.
  - intros Hnil. apply map_eq_nil in Hnil. by apply split_comma_not_nil in Hnil.
  - apply Forall_map.
    pose proof (split_comma_no_comma g) as Hcomma.
    pose proof (split_comma_chars _ g Hline) as Hlines.
    induction (split_comma g) as [|piece pieces IH]; [constructor|].
    apply Forall_cons in Hcomma as [Hc Hcs].
    apply Forall_cons in Hlines as [Hl Hls].
    constructor; [|by apply IH].
    split; [apply trim_trimmed|]. split; by apply trim_chars.
Qed.

End GetFunctionArgs.

Section ParameterListRoundTrip.

Lemma starts_with_ci_get p s :
  starts_with_ci p s = true →
  ∀ i a, String.get i p = Some a →
         ∃ b, String.get i s = Some b ∧ upper_char a = upper_char b.
Proof.
  revert s. induction p as [|x p IH]; intros s; [by intros _ []|].
  destruct s as [|y s]; [done|]. simpl.
  destruct (ascii_dec (upper_char x) (upper_char y)) as [Hxy|]; [|done].
  intros Hrest [|i] a; simpl.
  - intros [= <-]. by exists y.
  - by apply IH.
Qed.

Lemma upper_char_paren b : upper_char b = "("%char → b = "("%char.
Proof. destruct b as [[] [] [] [] [] [] [] []]; vm_compute; congruence. Qed.

Lemma all_chars_get p s i b :
  all_chars p s = true → String.get i s = Some b → p b = true.
Proof.
  revert i. induction s as [|c s IH]; intros i; [by destruct i|].
  simpl. intros [Hc Hs]%andb_true_iff. destruct i as [|i].
  - by intros [= <-].
  - by apply IH.
Qed.

Lemma get_app_l (s t : string) i :
  (i < String.length s)%nat → String.get i (s ++ t) = String.get i s.
Proof.
  revert i. induction s as [|c s IH]; intros i; simpl; [lia|].
  destruct i as [|i]; [done|]. intros H. apply IH. lia.
Qed.

Lemma get_app_r (s t : string) i :
  String.get (String.length s + i) (s ++ t) = String.get i t.
Proof. induction s as [|c s IH]; simpl; [done|]. exact IH. Qed.

(** Before the keyword no match can start when no parenthesis opens
    there. *)
Lemma no_match_in_prefix c pre rest :
  no_open_paren (String c pre) →
  starts_with_ci "constructor(" (String c pre ++ "constructor(" ++ rest) = false.
Proof.
  intros Hpre.
  destruct (starts_with_ci _ _) eqn:Hstarts; [exfalso|done].
  destruct (starts_with_ci_get _ _ Hstarts 11 "("%char eq_refl)
    as (b & Hb & Hupper).
  symmetry in Hupper. apply upper_char_paren in Hupper as ->.
  destruct (decide (11 < String.length (String c pre))%nat) as [Hlt|Hge].
  - rewrite get_app_l in Hb by done.
    by pose proof (all_chars_get _ _ _ _ Hpre Hb).
  - assert (∃ k, (k ≤ 10)%nat ∧
                 11 = (String.length (String c pre) + k)%nat) as (k & Hk & Heq).
    { exists (11 - String.length (String c pre))%nat. simpl in *. lia. }
    rewrite Heq, get_app_r in Hb.
    do 11 (destruct k as [|k]; [by vm_compute in Hb|]). lia.
Qed.

Lemma match_constructor_skip pre rest :
  no_open_paren pre →
  match_constructor (pre ++ "constructor(" ++ rest)
    = match_constructor ("constructor(" ++ rest).
Proof.
  induction pre as [|c pre IH]; [done|]. intros Hpre.
  change (String c pre ++ "constructor(" ++ rest)
    with (String c (pre ++ "constructor(" ++ rest)) at 1.
  cbn [match_constructor].
  change (String c (pre ++ "constructor(" ++ rest))
    with (String c pre ++ "constructor(" ++ rest).
  rewrite (no_match_in_prefix _ _ _ Hpre). apply IH.
  unfold no_open_paren in *. simpl in Hpre.
  by apply andb_true_iff in Hpre as [_ Hpre].
Qed.

Lemma match_constructor_here rest g :
  match_group rest = Some g →
  match_constructor ("constructor(" ++ rest) = Some g.
Proof.
  intros Hg.
  assert (starts_with_ci "constructor(" ("constructor(" ++ rest) = true)
    as Hstarts by reflexivity.
  change ("constructor(" ++ rest)
    with (String "c" ("onstructor(" ++ rest)) at 1.
  cbn [match_constructor].
  change (String "c" ("onstructor(" ++ rest)) with ("constructor(" ++ rest).
  rewrite Hstarts.
  change (drop 12 ("constructor(" ++ rest)) with rest. by rewrite Hg.
Qed.

Lemma line_of_app s t :
  all_chars (λ c, negb (is_line_terminator c)) s = true →
  line_of (s ++ t) = s ++ line_of t.
Proof.
  induction s as [|c s IH]; simpl; [done|].
  intros [Hc Hs]%andb_true_iff. apply negb_true_iff in Hc.
  by rewrite Hc, IH.
Qed.

Lemma before_last_paren_none t :
  no_close_paren t → before_last_paren t = None.
Proof.
  unfold no_close_paren. induction t as [|c t IH]; simpl; [done|].
  intros [Hc Ht]%andb_true_iff. rewrite (IH Ht).
  by destruct (ascii_dec c ")").
Qed.

Lemma before_last_paren_app g t :
  no_close_paren t → before_last_paren (g ++ String ")" t) = Some g.
Proof.
  intros Ht. induction g as [|c g IH].
  - change (EmptyString ++ String ")" t) with (String ")" t).
    cbn [before_last_paren]. by rewrite (before_last_paren_none _ Ht).
  - change (String c g ++ String ")" t) with (String c (g ++ String ")" t)).
    cbn [before_last_paren]. by rewrite IH.
Qed.

Lemma match_group_app g post :
  g ≠ EmptyString →
  all_chars (λ c, negb (is_line_terminator c)) g = true →
  no_close_paren (line_of post) →
  match_group (g ++ ")" ++ post) = Some g.
Proof.
  intros Hne Hg Hpost. unfold match_group.
  rewrite (line_of_app _ _ Hg).
  change (line_of (")" ++ post)) with (String ")" (line_of post)).
  rewrite (before_last_paren_app _ _ Hpost). by destruct g.
Qed.

Lemma split_comma_plain n :
  all_chars (λ c, negb (is_comma c)) n = true → split_comma n = [n].
Proof.
  induction n as [|c n IH]; simpl; [done|].
  intros [Hc Hn]%andb_true_iff. rewrite (IH Hn).
  unfold is_comma in Hc. by destruct (ascii_dec c ",").
Qed.

Lemma split_comma_app n s :
  all_chars (λ c, negb (is_comma c)) n = true →
  split_comma (n ++ String "," s) = n :: split_comma s.
Proof.
  induction n as [|c n IH].
  - intros _. change (EmptyString ++ String "," s) with (String "," s).
    cbn [split_comma]. destruct (split_comma s) eqn:Hs; [|done].
    by apply split_comma_not_nil in Hs.
  - intros [Hc Hn]%andb_true_iff.
    change (String c n ++ String "," s) with (String c (n ++ String "," s)).
    cbn [split_comma]. rewrite (IH Hn).
    unfold is_comma in Hc. by destruct (ascii_dec c ",").
Qed.

Lemma plain_name_no_comma n :
  plain_name n → all_chars (λ c, negb (is_comma c)) n = true.
Proof.
  intros [_ Hall]. eapply all_chars_impl; [|exact Hall].
  intros c. unfold name_char. by destruct (is_comma c).
Qed.

Lemma plain_name_one_line n :
  plain_name n → all_chars (λ c, negb (is_line_terminator c)) n = true.
Proof.
  intros [_ Hall]. eapply all_chars_impl; [|exact Hall].
  intros c. unfold name_char. destruct (is_line_terminator c); [|done].
  by rewrite !orb_true_r.
Qed.

Lemma trim_space_plain n : plain_name n → trim (String " " n) = n.
Proof. intros Hn. by rewrite <- (trim_plain n Hn) at 2. Qed.

Lemma split_join_names names :
  names ≠ [] → Forall plain_name names →
  map trim (split_comma (join_names names)) = names ∧
  map trim (split_comma (String " " (join_names names))) = names.
Proof.
  induction names as [|n names IH]; [done|]. intros _ Hall.
  apply Forall_cons in Hall as [Hn Hnames].
  pose proof (plain_name_no_comma n Hn) as Hcomma.
  assert (all_chars (λ c, negb (is_comma c)) (String " " n) = true) as Hpad
    by (simpl; by rewrite Hcomma).
  destruct names as [|m names].
  - cbn [join_names]. rewrite (split_comma_plain _ Hcomma).
    rewrite (split_comma_plain _ Hpad).
    cbn [map]. by rewrite (trim_plain n Hn), (trim_space_plain n Hn).
  - destruct (IH ltac:(done) Hnames) as [_ IHpad].
    change (join_names (n :: m :: names))
      with (n ++ String "," (String " " (join_names (m :: names)))).
    split.
    + rewrite (split_comma_app _ _ Hcomma). cbn [map].
      by rewrite IHpad, (trim_plain n Hn).
    + change (String " " (n ++ String "," (String " " (join_names (m :: names)))))
        with (String " " n ++ String "," (String " " (join_names (m :: names)))).
      rewrite (split_comma_app _ _ Hpad). cbn [map].
      by rewrite IHpad, (trim_space_plain n Hn).
Qed.

Lemma join_names_one_line names :
  Forall plain_name names →
  all_chars (λ c, negb (is_line_terminator c)) (join_names names) = true.
Proof.
  induction names as [|n names IH]; [done|]. intros Hall.
  apply Forall_cons in Hall as [Hn Hnames].
  destruct names as [|m names]; [by apply plain_name_one_line|].
  change (join_names (n :: m :: names))
    with (n ++ ", " ++ join_names (m :: names)).
  rewrite !all_chars_app, (plain_name_one_line n Hn), (IH Hnames). done.
Qed.

Lemma join_names_not_empty names :
  names ≠ [] → Forall plain_name names → join_names names ≠ EmptyString.
Proof.
  destruct names as [|n names]; [done|]. intros _ Hall.
  apply Forall_cons in Hall as [[Hne _] _].
  destruct n as [|c n]; [done|]. by destruct names.
Qed.

(** X2: [getFunctionArgs] reads a printed parameter list back.  For a
    source text in which no parenthesis opens before the keyword
    [constructor], whose parameters are plain names (not empty, and free of
    commas, of line terminators and of the white space [trim] strips, the
    no-break space included) separated by a comma and a space, and in
    which no parenthesis closes on the rest of the line after the list, the
    result is exactly the list of names, in order. *)
Theorem getFunctionArgs_join_names (before after : string)
    (names : list string) :
  no_open_paren before →
  names ≠ [] →
  Forall plain_name names →
  no_close_paren (line_of after) →
  getFunctionArgs (before ++ "constructor(" ++ join_names names ++ ")" ++ after)
    = Some names.
Proof.
  intros Hbefore Hnames Hplain Hafter. unfold getFunctionArgs.
  rewrite (match_constructor_skip _ _ Hbefore).
  rewrite (match_constructor_here _ (join_names names)).
  - by destruct (split_join_names names Hnames Hplain) as [-> _].
  - apply match_group_app; [|by apply join_names_one_line|done].
    by apply join_names_not_empty.
Qed.

End ParameterListRoundTrip.

(** ** Beyond the claims: the container *)

(** *** Constants and functions *)

Section RoundTrips.

Lemma get_constant fuel depName st v :
  constant_parameter st depName v → get (S fuel) depName st = (Ok v, st).
Proof.
  intros [(d & Hd & Hsame) Hprefix].
  apply same_definition_fields in Hsame
    as (_ & _ & _ & Hsing & Hconst & Hc & _ & Hf & _).
  simpl in *. unfold get_body, has, cached.
  by rewrite Hprefix, Hd, <- Hsing, <- Hf, <- Hc, <- Hconst.
Qed.

Lemma get_function fuel depName st f :
  registered st depName (function_definition f) →
  starts_with_nodeModulePrefix depName st = false →
  get (S fuel) depName st = (Ok f, st).
Proof.
  intros (d & Hd & Hsame) Hprefix.
  apply same_definition_fields in Hsame
    as (_ & _ & _ & Hsing & _ & _ & Hfun & Hf & _).
  simpl in *. unfold get_body, has, cached.
  by rewrite Hprefix, Hd, <- Hsing, <- Hf, <- Hfun.
Qed.

Lemma setDependency_registered name d st st' :
  _setDependency name d st = (Ok tt, st') →
  container st' !! name = Some d ∧ config st' = config st.
Proof.
  intros [([=] & _)|(_ & -> & _)]%setDependency_inv.
  simpl. by rewrite lookup_insert_eq.
Qed.

(** X5: what [addConstant] and [addFunction] register is what [get]
    returns.  After a successful [addConstant(name, c)], every [get(name)]
    returns [c] itself and changes nothing, so that any number of calls
    return it; after a successful [addFunction(name, f)], every
    [get(name)] returns [f] itself, uncalled.  The name must not start
    with the configured external-module prefix. *)
Theorem get_returns_registered_value (name : string) (v : value)
    (st st' : state) (fuel : nat) :
  starts_with_nodeModulePrefix name st = false →
  (addConstant name v st = (Ok tt, st') →
   get (S fuel) name st' = (Ok v, st')) ∧
  (addFunction name v st = (Ok tt, st') →
   get (S fuel) name st' = (Ok v, st')).
Proof.
  intros Hprefix. split; intros Hadd;
    apply setDependency_registered in Hadd as [Hd Hcfg].
  - apply get_constant. split; [by eexists|].
    unfold starts_with_nodeModulePrefix in *. by rewrite Hcfg.
  - apply get_function; [by eexists|].
    unfold starts_with_nodeModulePrefix in *. by rewrite Hcfg.
Qed.

(** X6: a scanned class is registered under the prefix followed by its
    [depName], or by its own name when it declares none: after a
    successful [addFile] of a class that is not flagged [ignore],
    [getClass] returns that very class for this name, and [has] answers
    for every other name as before. *)
Theorem addFile_class_registered (requiredFile : Required.t)
    (c : function_object) (prefix : option string) (st st' : state) :
  Required.prototype requiredFile = Some c →
  is_ignored requiredFile = false →
  addFile (Exports requiredFile) prefix st = (Ok tt, st') →
  let name :=
    default (Container.prefix (config st)) prefix ++ class_name requiredFile c in
  getClass name st' = (Ok (Some requiredFile), st') ∧
  has name st = false ∧
  ∀ other, other ≠ name → has other st' = has other st.
Proof.
  intros Hc Hignored. unfold addFile. fold (is_ignored requiredFile).
  rewrite Hignored, Hc. unfold _addClassDefinition, _createDepName. simpl.
  intros [([=] & _)|(_ & -> & Hd & Hi)]%setDependency_inv.
  split; [|split].
  - unfold getClass, has. simpl. by rewrite lookup_insert_eq.
  - unfold has. by rewrite Hd, Hi.
  - intros other Hne. unfold has. simpl. by rewrite lookup_insert_ne.
Qed.

End RoundTrips.

(** *** Resolution and [getClass] *)

Section GetClassAfterGet.

(** X7: resolution does not change what [getClass] answers: for a name
    in the container, [getClass] returns after any call of [get], whatever
    its outcome, what it returned before, and the name is still there. *)
Theorem getClass_after_get (fuel : nat) (depName name : string) (st : state) :
  is_Some (container st !! name) →
  let st' := snd (get fuel depName st) in
  fst (getClass name st') = fst (getClass name st) ∧ has name st' = true.
Proof.
  intros [d Hd]. cbv zeta.
  destruct (get fuel depName st) as [r st'] eqn:Hget.
  pose proof (get_kept false _ _ _ _ _ ltac:(done) Hget) as [(_ & _ & Hk) _].
  destruct (Hk _ _ Hd) as (d' & Hd' & Hsame & _).
  apply same_definition_fields in Hsame
    as (_ & Hfile & _ & _ & _ & Hc & _ & Hf & _).
  simpl. unfold getClass, has. rewrite Hd, Hd'. simpl.
  rewrite <- Hf, <- Hc, <- Hfile.
  by destruct (isFunction d), (isConstant d).
Qed.

End GetClassAfterGet.

(** *** Objects and classes that are not singletons *)

Section Objects.

#[local] Arguments new : simpl never.

Lemma objects_kept_refl st : objects_kept st st.
Proof. by repeat split. Qed.

Lemma objects_kept_trans st1 st2 st3 :
  objects_kept st1 st2 → objects_kept st2 st3 → objects_kept st1 st3.
Proof.
  intros (Hn12 & Hh12 & Hb12) (Hn23 & Hh23 & Hb23).
  split; [lia|]. split; [|tauto]. intros l Hl. by apply Hh23, Hh12.
Qed.

Lemma objects_kept_new st :
  objects_kept st
    (with_heap (S (next_loc st)) (<[next_loc st := ∅]> (heap st)) st).
Proof.
  split; [simpl; lia|]. split.
  - intros l Hl. simpl. rewrite lookup_insert_is_Some.
    destruct (decide (next_loc st = l)); [by left|by right].
  - intros Hbelow l. simpl. rewrite lookup_insert_is_Some.
    intros [<-|[_ Hl]]; [lia|]. specialize (Hbelow l Hl). lia.
Qed.

Lemma objects_kept_set l f v st :
  objects_kept st
    (with_heap (next_loc st) (alter (λ o, <[f := v]> o) l (heap st)) st).
Proof.
  assert (∀ l', is_Some (alter (λ o : gmap string value, <[f := v]> o) l (heap st) !! l')
                ↔ is_Some (heap st !! l')) as Halter.
  { intros l'. destruct (decide (l = l')) as [<-|Hne].
    - rewrite lookup_alter_eq. by rewrite fmap_is_Some.
    - by rewrite lookup_alter_ne. }
  split; [done|]. split.
  - intros l' Hl'. simpl. by apply Halter.
  - intros Hbelow l' Hl'. simpl in *. by apply Hbelow, Halter.
Qed.

Lemma objects_kept_container c st : objects_kept st (with_container c st).
Proof. by repeat split. Qed.

Lemma objects_kept_resolved r st : objects_kept st (with_resolved r st).
Proof. by repeat split. Qed.

Lemma objects_kept_register name d st r st' :
  by_user_code name (_setDependency name d) st = (r, st') → objects_kept st st'.
Proof.
  unfold by_user_code.
  destruct (_setDependency name d st) as [[[]| |] st1] eqn:Hset;
    apply setDependency_inv in Hset as [(_ & -> & _)|(_ & -> & _)];
    intros [= <- <-]; by repeat split.
Qed.

Lemma get_objects_kept fuel depName st r st' :
  get fuel depName st = (r, st') → objects_kept st st'.
Proof.
  apply (get_step objects_kept);
    eauto using objects_kept_refl, objects_kept_trans, objects_kept_register,
      objects_kept_container, objects_kept_resolved, objects_kept_new,
      objects_kept_set.
Qed.

Lemma run_objects_kept fuel p st r st' :
  run (get fuel) p st = (r, st') → objects_kept st st'.
Proof.
  apply (run_step objects_kept);
    eauto using objects_kept_refl, objects_kept_trans, objects_kept_register,
      objects_kept_new, objects_kept_set, get_objects_kept.
Qed.

Lemma get_args_objects_kept fuel names st r st' :
  get_args (get fuel) names st = (r, st') → objects_kept st st'.
Proof.
  apply (get_args_step objects_kept);
    eauto using objects_kept_refl, objects_kept_trans, get_objects_kept.
Qed.

Lemma run_returns_no_object this_get p :
  ∀ st v st',
    returns_no_object p → run this_get p st = (Ok v, st') →
    is_object v = false.
Proof.
  induction p as [v|msg| |m k IH|n c k IH|n f k IH|n f IHf k IH|k IH|l fld v k IH];
    intros st r st' Hp; simpl in *.
  - by intros [= <- _].
  - done.
  - done.
  - unfold bind. destruct (this_get m st) as [[v| |] st1]; [|done..].
    by apply IH.
  - unfold bind.
    destruct (by_user_code n (addConstant n c) st) as [[[]| |] st1]; [|done..].
    by apply IH.
  - unfold bind.
    destruct (by_user_code n (addFunction n f) st) as [[[]| |] st1]; [|done..].
    by apply IH.
  - unfold bind.
    destruct (by_user_code n (addFactory n f) st) as [[[]| |] st1]; [|done..].
    by apply IH.
  - by apply IH.
  - by apply IH.
Qed.

(** [new] on a class whose constructor returns no object of its own yields
    the object it made, which did not exist before. *)
Lemma new_fresh fuel requiredFile c values st v st' :
  Required.prototype requiredFile = Some c →
  returns_no_object (construct c (next_loc st) values) →
  new (get fuel) (Some requiredFile) values st = (Ok v, st') →
  v = VObj (next_loc st) ∧ (next_loc st < next_loc st')%nat.
Proof.
  intros Hc Hp. unfold new. rewrite Hc. unfold bind, ret.
  destruct (run (get fuel) _ _) as [[r| |] st1] eqn:Hrun; [|done..].
  intros [= <- <-].
  rewrite (run_returns_no_object _ _ _ _ _ Hp Hrun). split; [done|].
  apply run_objects_kept in Hrun as [Hle _]. simpl in Hle. lia.
Qed.

Lemma entry_not_singleton_unchanged fuel depName name st d :
  container st !! name = Some d → isSingleton d = false →
  container (snd (get fuel depName st)) !! name = Some d.
Proof.
  intros Hd Hsing. destruct (get fuel depName st) as [r st'] eqn:Hget.
  pose proof (get_kept false _ _ _ _ _ ltac:(done) Hget) as [(_ & _ & Hk) _].
  destruct (Hk _ _ Hd) as (d' & Hd' & Hs' & _ & Hi'). simpl. rewrite Hd'.
  f_equal. symmetry. apply same_definition_eq; [done|].
  destruct (decide (instance d' = instance d)) as [|Hne]; [done|].
  destruct (Hi' Hne) as (_ & (Hsingleton & _) & _). congruence.
Qed.

Lemma get_transient fuel depName st a requiredFile c v st' :
  registered st depName (class_definition a requiredFile false) →
  starts_with_nodeModulePrefix depName st = false →
  Required.prototype requiredFile = Some c →
  (∀ l values, returns_no_object (construct c l values)) →
  get fuel depName st = (Ok v, st') →
  ∃ l, v = VObj l ∧ (next_loc st ≤ l < next_loc st')%nat.
Proof.
  intros (d & Hd & Hsame) Hprefix Hc Hp.
  destruct fuel as [|fuel]; [done|].
  apply same_definition_fields in Hsame
    as (Ha & Hfile & _ & Hsing & _ & Hconst & _ & Hf & _ & Hfac).
  simpl in *. unfold get_body, has, cached.
  rewrite Hprefix, Hd, <- Hsing, <- Hf, <- Hconst, <- Hfac, <- Ha, <- Hfile.
  simpl. destruct a as [names|].
  - unfold bind.
    destruct (get_args (get fuel) names st) as [[values| |] st1] eqn:Hga;
      [|done..].
    assert (next_loc st ≤ next_loc st1)%nat as Hle
      by (by apply get_args_objects_kept in Hga as [Hle _]).
    destruct (new (get fuel) (Some requiredFile) values st1)
      as [[inst| |] st2] eqn:Hnew; [|done..].
    intros [= <- <-].
    apply (new_fresh _ _ c) in Hnew as [-> Hlt]; [|done|by apply Hp].
    exists (next_loc st1). split; [done|lia].
  - intros Hnew.
    apply (new_fresh _ _ c) in Hnew as [-> Hlt]; [|done|by apply Hp].
    exists (next_loc st). split; [done|lia].
Qed.

(** X8: a class that is not a singleton is constructed on every call.
    For a class registered with [singleton] other than [undefined] and
    [true], whose constructor returns no object of its own, two calls of
    [get] that return give two different objects, the second made after
    the first, and neither is cached: the entry is after both calls what
    it was before. *)
Theorem get_transient_twice (fuel1 fuel2 : nat) (depName : string)
    (st st1 st2 : state) (a : option (list string))
    (requiredFile : Required.t) (c : function_object) (v1 v2 : value) :
  registered st depName (class_definition a requiredFile false) →
  starts_with_nodeModulePrefix depName st = false →
  Required.prototype requiredFile = Some c →
  (∀ l values, returns_no_object (construct c l values)) →
  get fuel1 depName st = (Ok v1, st1) →
  get fuel2 depName st1 = (Ok v2, st2) →
  (∃ l1 l2, v1 = VObj l1 ∧ v2 = VObj l2 ∧ (l1 < l2)%nat) ∧
  v1 ≠ v2 ∧
  container st2 !! depName = container st !! depName.
Proof.
  intros Hreg Hprefix Hc Hp Hget1 Hget2.
  destruct (get_transient _ _ _ _ _ _ _ _ Hreg Hprefix Hc Hp Hget1)
    as (l1 & -> & Hl1).
  destruct Hreg as (d & Hd & Hsame).
  assert (isSingleton d = false) as Hsing.
  { apply same_definition_fields in Hsame as (_ & _ & _ & <- & _). done. }
  pose proof (entry_not_singleton_unchanged fuel1 depName depName st d Hd Hsing)
    as Hd1. rewrite Hget1 in Hd1. simpl in Hd1.
  pose proof (entry_not_singleton_unchanged fuel2 depName depName st1 d Hd1 Hsing)
    as Hd2. rewrite Hget2 in Hd2. simpl in Hd2.
  assert (starts_with_nodeModulePrefix depName st1 = false) as Hprefix1.
  { pose proof (get_kept false _ _ _ _ _ ltac:(done) Hget1) as [(Hcfg & _) _].
    unfold starts_with_nodeModulePrefix in *. by rewrite Hcfg. }
  destruct (get_transient fuel2 depName st1 a requiredFile c v2 st2)
    as (l2 & -> & Hl2); [by exists d|done..|].
  split; [exists l1, l2; repeat split; lia|].
  split; [intros [= Heq]; lia|]. by rewrite Hd2, Hd.
Qed.

End Objects.

(** *** Constructor parameters *)

Section Wiring.

#[local] Arguments new : simpl never.







End Wiring.

(** *** Scanning a directory *)

Section Scan.

Lemma fs_entry_ind (P : fs_entry → Prop) :
  (∀ files, Forall P files → P (Directory files)) →
  (∀ extname fullPath, P (File extname fullPath)) →
  ∀ file, P file.
Proof.
  intros Hdir Hfile.
  refine (fix go (file : fs_entry) : P file :=
            match file with
            | Directory files =>
                Hdir files
                  ((fix each (l : list fs_entry) : Forall P l :=
                      match l with
                      | [] => Forall_nil_2 P
                      | x :: r => Forall_cons_2 P x r (go x) (each r)
                      end) files)
            | File extname fullPath => Hfile extname fullPath
            end).
Qed.

Lemma bind_unit (m : M unit) st : (let! _ := m in ret tt) st = m st.
Proof. unfold bind, ret. by destruct (m st) as [[[]| |] st']. Qed.

Lemma addFiles_app files1 files2 prefix st :
  addFiles (files1 ++ files2)%list prefix st =
    (let! _ := addFiles files1 prefix in addFiles files2 prefix) st.
Proof.
  revert st. induction files1 as [|f files1 IH]; intros st; [done|].
  cbn [app addFiles]. unfold bind.
  destruct (addFile f (Some prefix) st) as [[[]| |] st1]; [|done..].
  apply IH.
Qed.

Lemma addDirectory_entry_flat prefix file :
  ∀ st, addDirectory_entry prefix file st = addFiles (js_files file) prefix st.
Proof.
  induction file as [files IH|extname fullPath] using fs_entry_ind;
    intros st.
  - change (addDirectory_entry prefix (Directory files))
      with (addDirectory_files prefix files).
    revert st. induction IH as [|file rest Hfile _ IHrest]; intros st; [done|].
    change (js_files (Directory (file :: rest)))
      with (js_files file ++ js_files (Directory rest))%list.
    rewrite addFiles_app. cbn [addDirectory_files]. unfold bind.
    rewrite Hfile.
    destruct (addFiles (js_files file) prefix st) as [[[]| |] st1]; [|done..].
    apply IHrest.
  - cbn [addDirectory_entry js_files].
    destruct (String.eqb extname ".js"); [|done].
    cbn [addFiles]. by rewrite bind_unit.
Qed.

(** X11: only the sequence of [.js] files counts in a scan.
    [addDirectory] does what [addFile] does on each [.js] file in the
    order the scan meets them, directories entered where they stand, each
    with the same prefix (the given one, or [config.prefix] when none is
    given), and it stops at the first file whose registration throws; files
    with another extension are passed over, and a directory without any
    [.js] file leaves the container as it is. *)
Theorem addDirectory_as_addFiles (directory : list fs_entry)
    (prefix : option string) (st : state) :
  addDirectory directory prefix st =
    addFiles (js_files (Directory directory))
      (default (Container.prefix (config st)) prefix) st ∧
  (js_files (Directory directory) = [] →
   addDirectory directory prefix st = (Ok tt, st)).
Proof.
  assert (addDirectory directory prefix st =
            addFiles (js_files (Directory directory))
              (default (Container.prefix (config st)) prefix) st) as Heq
    by apply addDirectory_entry_flat.
  split; [exact Heq|]. intros Hnone. by rewrite Heq, Hnone.
Qed.

Lemma string_prefix_app (p s : string) : String.prefix p (p ++ s) = true.
Proof.
  induction p as [|c p IH]; simpl; [by destruct s|].
  by destruct (ascii_dec c c).
Qed.

Lemma scanned_refl p st : scanned p st st.
Proof.
  split; [done|]. split; [|by destruct st].
  intros n Hn [d Hd]. congruence.
Qed.

Lemma scanned_trans p st1 st2 st3 :
  scanned p st1 st2 → scanned p st2 st3 → scanned p st1 st3.
Proof.
  intros (Hk12 & Hn12 & Hs12) (Hk23 & Hn23 & Hs23). split; [|split].
  - intros n d Hd. by apply Hk23, Hk12.
  - intros n Hn Hin. destruct (container st2 !! n) as [d|] eqn:Hd2.
    + apply Hn12; [done|by eexists].
    + by apply Hn23.
  - unfold with_container in *. destruct st1, st2, st3. simpl in *. congruence.
Qed.

Lemma setDependency_scanned p name d st r st' :
  _setDependency (p ++ name) d st = (r, st') →
  scanned p st st' ∧
  ∀ n, r = Err (DuplicateDependency n) →
       String.prefix p n = true ∧ has n st' = true.
Proof.
  intros [(-> & -> & Hhas)|(-> & -> & Hd & _)]%setDependency_inv.
  - split; [apply scanned_refl|]. intros n [= <-].
    split; [apply string_prefix_app|done].
  - split; [|done]. split; [|split; [|done]].
    + intros n d1 Hd1. simpl. rewrite lookup_insert_ne; [done|]. congruence.
    + intros n Hn. simpl. rewrite lookup_insert_is_Some.
      intros [<-|[_ [d1 Hd1]]]; [apply string_prefix_app|congruence].
Qed.

Lemma addFile_scanned p fullPath st r st' :
  addFile fullPath (Some p) st = (r, st') →
  scanned p st st' ∧
  ∀ n, r = Err (DuplicateDependency n) →
       String.prefix p n = true ∧ has n st' = true.
Proof.
  destruct fullPath as [msg| |requiredFile]; cbn [addFile];
    [intros [= <- <-]; split; [apply scanned_refl|done]..|].
  cbn [default].
  destruct (match Required.ignore requiredFile with
            | Some v => truthy v | None => false end).
  { intros [= <- <-]. split; [apply scanned_refl|done]. }
  destruct (Required.prototype requiredFile) as [c|];
    [apply setDependency_scanned|].
  destruct (Required.factory requiredFile) as [f|];
    [apply setDependency_scanned|].
  destruct (Required.constant requiredFile) as [v|];
    [apply setDependency_scanned|].
  destruct (Required.function requiredFile) as [v|];
    [apply setDependency_scanned|].
  intros [= <- <-]. split; [apply scanned_refl|done].
Qed.

Lemma addFiles_scanned p files :
  ∀ st r st',
    addFiles files p st = (r, st') →
    scanned p st st' ∧
    ∀ n, r = Err (DuplicateDependency n) →
         String.prefix p n = true ∧ has n st' = true.
Proof.
  induction files as [|f files IH]; intros st r st'; cbn [addFiles].
  - intros [= <- <-]. split; [apply scanned_refl|done].
  - unfold bind.
    destruct (addFile f (Some p) st) as [[[]| |] st1] eqn:Hf;
      apply addFile_scanned in Hf as [Hs Hr].
    + intros Hrest. apply IH in Hrest as [Hs' Hr'].
      split; [by eapply scanned_trans|done].
    + by intros [= <- <-].
    + by intros [= <- <-].
Qed.

(** X12: a scan only adds.  Whatever the outcome of [addDirectory], be it
    that it returns, that a name is refused as a duplicate or that a file
    fails to load, every entry that was in the container is still there
    unchanged, every name it added starts with the prefix of the scan, and
    nothing but the registry has changed (no object was made, no module was
    asked for): the files scanned before a failing one stay registered.
    When it throws the duplicate-name error, then for a name that starts
    with that prefix and that the container answers to. *)
Theorem addDirectory_only_adds (directory : list fs_entry)
    (prefix : option string) (st st' : state) (r : outcome unit) :
  addDirectory directory prefix st = (r, st') →
  let p := default (Container.prefix (config st)) prefix in
  scanned p st st' ∧
  ∀ n, r = Err (DuplicateDependency n) →
       String.prefix p n = true ∧ has n st' = true.
Proof.
  intros Hadd. cbv zeta. apply (addFiles_scanned _ (js_files (Directory directory))).
  rewrite <- Hadd. symmetry. apply addDirectory_entry_flat.
Qed.

End Scan.

(** *** Singletons with parameters *)

Section SingletonsAgain.

Lemma scanned_kept p st st' : scanned p st st' → kept false st st'.
Proof.
  intros (Hk & _ & Hst). split; [|done].
  split; [by rewrite Hst|]. split; [by rewrite Hst|].
  intros n d Hd. exists d. split; [by apply Hk|apply entry_kept_refl].
Qed.

Lemma register_kept r st : kept false st (snd (register r st)).
Proof.
  destruct r as [n c|n f|n f|requiredFile prefix]; cbn [register];
    [unfold addConstant|unfold addFunction|unfold addFactory|];
    try (destruct (_setDependency _ _ st) as [o st'] eqn:Hset;
         by apply setDependency_kept in Hset).
  destruct (addFile (Exports requiredFile) prefix st) as [o st'] eqn:Hadd.
  assert (addFile (Exports requiredFile)
            (Some (default (Container.prefix (config st)) prefix)) st
          = (o, st')) as Hadd' by (by destruct prefix).
  apply addFile_scanned in Hadd' as [Hs _]. simpl. by eapply scanned_kept.
Qed.

Lemma later_kept st st' : later st st' → kept false st st'.
Proof.
  induction 1 as [st|st st1 fuel depName _ IH|st st1 depName _ IH
                 |st st1 r _ IH|st st1 directory prefix _ IH].
  - apply kept_refl.
  - eapply kept_trans; [exact IH|].
    destruct (get fuel depName st1) as [o st2] eqn:Hget.
    by eapply get_kept; [|exact Hget].
  - by rewrite getClass_state.
  - eapply kept_trans; [exact IH|]. apply register_kept.
  - eapply kept_trans; [exact IH|].
    destruct (addDirectory directory prefix st1) as [o st2] eqn:Hadd.
    unfold addDirectory in Hadd. rewrite addDirectory_entry_flat in Hadd.
    apply addFiles_scanned in Hadd as [Hs _]. simpl. by eapply scanned_kept.
Qed.

(** X14: the instance of a singleton class with a parameter list stays.
    Once a call of [get] on it has returned, every later call, at any
    depth and after any number of other calls of [get], of [getClass] and
    of the registration operations, returns the same instance and changes
    nothing: neither the parameters are resolved nor the constructor is
    run again. *)
Theorem get_singleton_again (fuel : nat) (depName : string) (st : state)
    (names : list string) (requiredFile : Required.t) (v : value)
    (st' : state) :
  registered st depName (class_definition (Some names) requiredFile true) →
  starts_with_nodeModulePrefix depName st = false →
  get (S fuel) depName st = (Ok v, st') →
  ∀ st'', later st' st'' →
          ∀ fuel', get (S fuel') depName st'' = (Ok v, st'').
Proof.
  intros Hreg Hprefix Hget st'' Hlater fuel'.
  destruct (singleton_cached_after _ _ _ _ _ _ _ Hreg Hprefix Hget)
    as (Hprefix' & d' & Hd' & Hcached & Hinst).
  apply later_kept in Hlater as [(Hcfg & _ & Hk) _].
  destruct (Hk _ _ Hd') as (d'' & Hd'' & _ & Hsame & _).
  rewrite (Hsame Hcached) in Hd''.
  eapply get_cached; [|exact Hd''|done|done].
  unfold starts_with_nodeModulePrefix in *. by rewrite Hcfg.
Qed.

End SingletonsAgain.

(** *** Files that declare no name *)

Section Nameless.



End Nameless.

(** *** The properties at the example containers *)

Section MoreFacts.

Import MoreExamples.

Lemma database_container_built :
  let st1 := snd (addConstant "Config" (VStr "bob") empty_container) in
  let st2 := snd (addFile (Exports (transient_exports Puppy)) None st1) in
  let st3 := snd (addFile (Exports (exports Database)) None st2) in
  snd (addFile (Exports (exports Store)) None st3) = database_container.
Proof. vm_compute. reflexivity. Qed.

Lemma getFunctionArgs_names_witness :
  ["Ball"; "bcrypt"] ≠ [] ∧
  Forall (λ n, trimmed n ∧
               all_chars (λ c, negb (is_comma c)) n = true ∧
               all_chars (λ c, negb (is_line_terminator c)) n = true)
    ["Ball"; "bcrypt"].
Proof.
  apply (getFunctionArgs_names (toString Dog)). vm_compute. reflexivity.
Defined.

Lemma getFunctionArgs_join_names_witness :
  getFunctionArgs
    ("class Dog {
    " ++ "constructor(" ++ join_names ["Ball"; "bcrypt"] ++ ")" ++ " {
        this.Ball = Ball;
    }
}")
  = Some ["Ball"; "bcrypt"].
Proof.
  apply getFunctionArgs_join_names.
  - vm_compute. reflexivity.
  - discriminate.
  - repeat constructor; try discriminate; vm_compute; reflexivity.
  - vm_compute. reflexivity.
Defined.

Lemma get_returns_registered_value_witness :
  let st' := snd (addConstant "Config" (VStr "bob") empty_container) in
  get 1 "Config" st' = (Ok (VStr "bob"), st').
Proof.
  cbv zeta.
  destruct (get_returns_registered_value "Config" (VStr "bob") empty_container
              (snd (addConstant "Config" (VStr "bob") empty_container)) 0)
    as [Hconstant _]; [reflexivity|].
  apply Hconstant. reflexivity.
Defined.

Lemma addFile_class_registered_witness :
  let st' := snd (addFile (Exports (exports Dog)) (Some "$") empty_container) in
  getClass "$Dog" st' = (Ok (Some (exports Dog)), st') ∧
  has "Dog" st' = has "Dog" empty_container.
Proof.
  cbv zeta.
  destruct (addFile_class_registered (exports Dog) Dog (Some "$")
              empty_container
              (snd (addFile (Exports (exports Dog)) (Some "$") empty_container)))
    as (Hclass & _ & Hother); [reflexivity|reflexivity|by vm_compute|].
  split; [exact Hclass|]. apply Hother. discriminate.
Defined.

Lemma getClass_after_get_witness :
  fst (getClass "Dog" (snd (get 2 "Dog" readme_container)))
    = fst (getClass "Dog" readme_container).
Proof.
  apply (getClass_after_get 2 "Dog" "Dog" readme_container).
  eexists. vm_compute. reflexivity.
Defined.

Lemma get_transient_twice_witness :
  let st1 := snd (get 1 "Puppy" database_container) in
  let st2 := snd (get 1 "Puppy" st1) in
  container st2 !! "Puppy" = container database_container !! "Puppy".
Proof.
  cbv zeta.
  apply (get_transient_twice 1 1 "Puppy" database_container
           (snd (get 1 "Puppy" database_container))
           (snd (get 1 "Puppy" (snd (get 1 "Puppy" database_container))))
           None (transient_exports Puppy) Puppy (VObj 0) (VObj 1)).
  - eexists. split; [vm_compute; reflexivity|reflexivity].
  - vm_compute. reflexivity.
  - reflexivity.
  - intros l values. reflexivity.
  - vm_compute. reflexivity.
  - vm_compute. reflexivity.
Defined.




Lemma addDirectory_as_addFiles_witness :
  addDirectory documents_directory None readme_container
    = (Ok tt, readme_container).
Proof.
  apply (addDirectory_as_addFiles documents_directory None readme_container).
  vm_compute. reflexivity.
Defined.

Lemma addDirectory_only_adds_witness :
  let st' := snd (addDirectory source_directory (Some "$") readme_container) in
  let st'' := snd (addDirectory broken_directory None readme_container) in
  scanned "$" readme_container st' ∧
  scanned "" readme_container st'' ∧
  is_Some (container st'' !! "Database").
Proof.
  cbv zeta. split; [|split].
  - apply (addDirectory_only_adds source_directory (Some "$") readme_container
             _ (fst (addDirectory source_directory (Some "$") readme_container))).
    vm_compute. reflexivity.
  - apply (addDirectory_only_adds broken_directory None readme_container
             _ (fst (addDirectory broken_directory None readme_container))).
    vm_compute. reflexivity.
  - eexists. vm_compute. reflexivity.
Defined.

Lemma get_singleton_again_witness :
  let st' := snd (get 2 "Dog" readme_container) in
  let st'' := snd (register (CallAddConstant "Cat" (VNum 9))
                     (snd (get 2 "Car" st'))) in
  get 1 "Dog" st'' = (Ok (VObj 1), st'').
Proof.
  cbv zeta.
  apply (get_singleton_again 1 "Dog" readme_container
           ["Ball"; "bcrypt"] (exports Dog) (VObj 1)
           (snd (get 2 "Dog" readme_container))).
  - eexists. split; [vm_compute; reflexivity|reflexivity].
  - vm_compute. reflexivity.
  - vm_compute. reflexivity.
  - apply later_register, later_get, later_now.
Defined.


End MoreFacts.
